(** * ReferenceClass: conditional classifier selection by projected gradient descent

    A shallow embedding of [src/models/reference_class.py].

    Tensor entries are IEEE-754 binary floating-point numbers, modelled with
    the Standard Library's [SpecFloat] (the specification the primitive
    floats of Rocq are checked against), for an arbitrary format
    [(prec, emax)]; [(24, 128)] is torch's default [float32].  Tensors carry
    their shape, and binary operations follow torch's broadcasting rules, so
    that [squeeze], [unsqueeze] and the mask arithmetic of [pairwise_select]
    behave as they do in the source. *)

From Stdlib Require Import String ZArith List Bool Lia PeanoNat SpecFloat.
Import ListNotations.

(** ** Floating-point scalars *)

Definition float : Set := spec_float.

Definition is_nan (x : float) : bool :=
  match x with S754_nan => true | _ => false end.

(** Neither an infinity nor a NaN. *)
Definition is_finite (x : float) : bool :=
  match x with S754_zero _ | S754_finite _ _ _ => true | _ => false end.

Definition flt : float -> float -> bool := SFltb.
Definition fle : float -> float -> bool := SFleb.
Definition feq : float -> float -> bool := SFeqb.

Definition fzero : float := S754_zero false.

Local Open Scope Z_scope.

(** The position of a non-NaN float in the order: class, then exponent, then
    mantissa, the last two negated for negative numbers. *)
Definition order_key (x : float) : Z * Z * Z :=
  match x with
  | S754_nan => (0, 0, 0)
  | S754_infinity true => (-2, 0, 0)
  | S754_infinity false => (2, 0, 0)
  | S754_zero _ => (0, 0, 0)
  | S754_finite true m e => (-1, - e, Zneg m)
  | S754_finite false m e => (1, e, Zpos m)
  end.

Definition key_lt (a b : Z * Z * Z) : Prop :=
  let '(a1, a2, a3) := a in
  let '(b1, b2, b3) := b in
  a1 < b1 \/ (a1 = b1 /\ (a2 < b2 \/ (a2 = b2 /\ a3 < b3))).

Local Close Scope Z_scope.

(** [keeps x r]: [r] is [x], except that a negative zero may come out as a
    positive one. *)
Definition keeps (x r : float) : Prop :=
  r = x \/ (x = S754_zero true /\ r = S754_zero false).

(** ** Tensors

    A tensor is a shape and an entry for every index.  Only the entries at
    the indices within the shape are meaningful. *)

Definition index : Set := list nat.

Record tensor (A : Type) : Type := mkT { shape : list nat; elem : index -> A }.

Arguments mkT {A} shape elem.
Arguments shape {A} t.
Arguments elem {A} t i.

Definition in_range (s : list nat) (i : index) : Prop := Forall2 lt i s.

(** All the indices within a shape, in row-major order. *)
Fixpoint indices (s : list nat) : list index :=
  match s with
  | [] => [[]]
  | d :: s' => flat_map (fun k => map (cons k) (indices s')) (seq 0 d)
  end.

(** torch's broadcasting of two shapes, aligned at the last dimension; the
    shapes are given last dimension first. *)
Fixpoint broadcast_rev (s1 s2 : list nat) : option (list nat) :=
  match s1, s2 with
  | [], s => Some s
  | s, [] => Some s
  | a :: s1', b :: s2' =>
      match broadcast_rev s1' s2' with
      | Some s =>
          if a =? b then Some (a :: s)
          else if a =? 1 then Some (b :: s)
          else if b =? 1 then Some (a :: s)
          else None
      | None => None
      end
  end.

(** [None] is torch's RuntimeError for shapes that cannot be broadcast. *)
Definition broadcast_shapes (s1 s2 : list nat) : option (list nat) :=
  option_map (@rev nat) (broadcast_rev (rev s1) (rev s2)).

(** The index into an operand of shape [s] that the index [i] of the
    broadcast result reads: the trailing dimensions of [i], with 0 along
    the dimensions of size 1. *)
Definition bidx (s : list nat) (i : index) : index :=
  map (fun dk => if fst dk =? 1 then 0 else snd dk)
      (combine s (skipn (length i - length s) i)).

Definition tmap {A B} (f : A -> B) (t : tensor A) : tensor B :=
  mkT (shape t) (fun i => f (elem t i)).

(** An elementwise binary operation with broadcasting. *)
Definition tmap2 {A B C} (f : A -> B -> C) (a : tensor A) (b : tensor B)
  : option (tensor C) :=
  match broadcast_shapes (shape a) (shape b) with
  | Some s =>
      Some (mkT s (fun i => f (elem a (bidx (shape a) i))
                               (elem b (bidx (shape b) i))))
  | None => None
  end.

(** [torch.zeros(s)], [torch.ones(s)]. *)
Definition full {A} (s : list nat) (x : A) : tensor A := mkT s (fun _ => x).

(** The index before [squeeze()] of the index [i] after it. *)
Fixpoint unsqueeze_index (s : list nat) (i : index) : index :=
  match s with
  | [] => []
  | d :: s' =>
      if d =? 1 then 0 :: unsqueeze_index s' i
      else match i with
           | k :: i' => k :: unsqueeze_index s' i'
           | [] => 0 :: unsqueeze_index s' []
           end
  end.

(** [t.squeeze()]: every dimension of size 1 is removed. *)
Definition squeeze {A} (t : tensor A) : tensor A :=
  mkT (filter (fun d => negb (d =? 1)) (shape t))
      (fun i => elem t (unsqueeze_index (shape t) i)).

(** [t.unsqueeze(-1)]. *)
Definition unsqueeze_last {A} (t : tensor A) : tensor A :=
  mkT (shape t ++ [1]) (fun i => elem t (removelast i)).

(** [t.t()] of a tensor of at most two dimensions. *)
Definition transpose {A} (t : tensor A) : tensor A :=
  mkT (rev (shape t)) (fun i => elem t (rev i)).

(** [~mask]. *)
Definition tnot (t : tensor bool) : tensor bool := tmap negb t.

(** [int(mask.sum())]: the number of [True] entries. *)
Definition count_true (t : tensor bool) : nat :=
  length (filter (fun i => elem t i) (indices (shape t))).

(** The entries along dimension 1 at the index [i0 :: rest] of the other
    dimensions. *)
Definition lane1 {A} (t : tensor A) (n : nat) (i0 : nat) (rest : index) : list A :=
  map (fun j => elem t (i0 :: j :: rest)) (seq 0 n).

(** The entries along the last dimension at the index [i] of the others. *)
Definition lane_last {A} (t : tensor A) (i : index) : list A :=
  map (fun d => elem t (i ++ [d])) (seq 0 (last (shape t) 0)).

(** The scan of torch's minimum reduction over one lane: the running
    minimum is replaced by every entry [x] for which [x >= minimum] does
    not hold, and the scan stops at the first NaN. *)
Fixpoint min_scan (best : float) (bi : nat) (i : nat) (l : list float) : float * nat :=
  match l with
  | [] => (best, bi)
  | x :: l' =>
      if negb (fle best x)
      then if is_nan x then (x, i) else min_scan x i (S i) l'
      else min_scan best bi (S i) l'
  end.

Definition lane_min (l : list float) : float * nat :=
  min_scan (hd S754_nan l) 0 0 l.

(** [torch.min(t, dim=1)]: the values and the indices of the minimum along
    dimension 1.  [None] is the error torch raises for a tensor without a
    dimension 1 or with an empty one. *)
Definition torch_min_dim1 (t : tensor float) : option (tensor float * tensor nat) :=
  match shape t with
  | s0 :: s1 :: rest =>
      if s1 =? 0 then None
      else
        let lane i := lane1 t s1 (hd 0 i) (tl i) in
        Some (mkT (s0 :: rest) (fun i => fst (lane_min (lane i))),
              mkT (s0 :: rest) (fun i => snd (lane_min (lane i))))
  | _ => None
  end.


(** [torch.where(c, a, b)], with broadcasting. *)
Definition torch_where {A} (c : tensor bool) (a b : tensor A) : option (tensor A) :=
  match tmap2 pair a b with
  | Some ab => tmap2 (fun (ci : bool) (xy : A * A) => if ci then fst xy else snd xy) c ab
  | None => None
  end.

(** A shape without its trailing dimensions of size 1. *)
Fixpoint drop_ones (s : list nat) : list nat :=
  match s with
  | 1 :: s' => drop_ones s'
  | _ => s
  end.

Definition strip_trailing_ones (s : list nat) : list nat := rev (drop_ones (rev s)).

(** What the scan of [min_scan] has established of the entries [pre] read
    so far. *)
Definition scan_inv (pre : list float) (best : float) (bi : nat) : Prop :=
  is_nan best = false /\ bi < length pre /\ nth bi pre S754_nan = best /\
  (forall p, p < length pre -> fle best (nth p pre S754_nan) = true) /\
  (forall p, p < bi -> flt best (nth p pre S754_nan) = true).

(** What the scan returns for the lane [L]. *)
Definition scan_post (L : list float) (r : float * nat) : Prop :=
  snd r < length L /\ nth (snd r) L S754_nan = fst r /\
  if is_nan (fst r)
  then forall p, p < snd r -> is_nan (nth p L S754_nan) = false
  else (forall p, p < length L -> fle (fst r) (nth p L S754_nan) = true) /\
       (forall p, p < snd r -> flt (fst r) (nth p L S754_nan) = true).

(** ** The collaborators

    The linear model ([utils/simple_models.py]) and the dataset
    ([utils/data.py]) are not among the sources. *)

(** Modelled from the spec: the linear model, which "owns a batched weight
    tensor of shape [num_observations, num_predictors, dim_sample]" and is
    built "from a weight tensor or from an observation tensor of matching
    leading dims".  The source reads the attribute [weights] and calls
    [size()]. *)
Record LinearModel : Type := mkLinearModel { weights : tensor float }.

Definition size (m : LinearModel) : list nat := shape (weights m).

(** Modelled from the spec: the dataset, whose "slice access returns
    (labels[k,P], features[k,D])"; [dataset[:]] is the pair of its two
    tensors. *)
Record Dataset : Type := mkDataset { labels : tensor float; features : tensor float }.

Definition getall (d : Dataset) : tensor float * tensor float :=
  (labels d, features d).

(** The progress bar [self.converged_bar]: its counter [n], and the values
    of the counter that [refresh()] has displayed, latest first. *)
Record progress : Type := mkProgress
  { bar_total : nat; bar_n : nat; bar_shown : list nat; bar_closed : bool }.

Definition tqdm (total : nat) : progress := mkProgress total 0 [] false.
Definition set_n (bar : progress) (n : nat) : progress :=
  mkProgress (bar_total bar) n (bar_shown bar) (bar_closed bar).
Definition refresh (bar : progress) : progress :=
  mkProgress (bar_total bar) (bar_n bar) (bar_n bar :: bar_shown bar) (bar_closed bar).
Definition close (bar : progress) : progress :=
  mkProgress (bar_total bar) (bar_n bar) (bar_shown bar) true.

(** The attributes of a [ReferenceClass] instance that [__init__] sets. *)
Record ReferenceClass : Type := mkReferenceClass
  { header : string;
    num_iter : Z;
    lr : float;
    device : string;
    dataset_train : Dataset;
    dataset_val : option Dataset;
    dataset_eval : Dataset }.

Notation "x <- c1 ;; c2" :=
  (match c1 with Some x => c2 | None => None end)
    (at level 61, c1 at next level, right associativity).

(** What [__init__] does besides setting attributes, in order. *)
Inductive init_event : Type :=
| Print_feature_size (n dim : nat)
| Print_label_size (n dim : nat)
| Random_split (lengths : list Z).

(** The exceptions of [__init__]: the [ValueError] of its two [raise]
    statements and of [int(nan)], the [OverflowError] of [int(inf)], and
    the error of unpacking a list of another length. *)
Inductive exn : Type :=
| ValueError (msg : string)
| OverflowError
| UnpackError.

(** Modelled from the spec: the dataset exposes "len(), dim_feature(),
    dim_label()": the number of samples and the trailing dimension of the
    two tensors. *)
Definition len (d : Dataset) : nat := hd 0 (shape (features d)).
Definition dim_feature (d : Dataset) : nat := last (shape (features d)) 0.
Definition dim_label (d : Dataset) : nat := last (shape (labels d)) 0.

(** The state of the loop with a validation set: the live model, the
    progress bar, and the best weights and errors so far. *)
Definition val_state : Type := LinearModel * progress * tensor float * tensor float.

Definition st_model (st : val_state) : LinearModel := fst (fst (fst st)).
Definition st_bar (st : val_state) : progress := snd (fst (fst st)).
Definition st_weights (st : val_state) : tensor float := snd (fst st).
Definition st_errors (st : val_state) : tensor float := snd st.

(** The merge in the words of the spec: "improved = current_error <
    best_error"; "best_error' = where(improved, current_error, best_error);
    best_weight' = where(improved, current_weight, best_weight) broadcast
    over the trailing feature dimension". *)
Definition pairwise_select_where (curr_error min_error curr_weight min_weight : tensor float)
  : option (tensor float * tensor float) :=
  improved <- tmap2 flt curr_error min_error ;;
  best_error <- torch_where improved curr_error min_error ;;
  best_weight <- torch_where (unsqueeze_last improved) curr_weight min_weight ;;
  Some (best_weight, best_error).

(** ** Python's floats and integers *)

Section Python.

Local Open Scope Z_scope.

(** Python's floats are binary64. *)
Definition py_add : float -> float -> float := SFadd 53 1024.
Definition py_mul : float -> float -> float := SFmul 53 1024.
Definition py_float (n : Z) : float := binary_normalize 53 1024 n 0 false.

(** [sum(l)] of a list of floats, from the start value 0, left to right.
    (From Python 3.12 on the sum of three or more floats is compensated;
    [__init__] rejects such lists whatever their sum.) *)
Definition py_sum (l : list float) : float := fold_left py_add l (py_float 0).

(** [int(x)] truncates towards zero and raises for NaN and the infinities. *)
Definition py_int (x : float) : exn + Z :=
  match x with
  | S754_zero _ => inr 0
  | S754_finite s m e => inr (cond_Zopp s (Z.shiftl (Zpos m) e))
  | S754_infinity _ => inl OverflowError
  | S754_nan => inl (ValueError "cannot convert float NaN to integer")
  end.

(** [[int(n * frac) for frac in fracs]] *)
Fixpoint subset_sizes_of (n : Z) (fracs : list float) : exn + list Z :=
  match fracs with
  | [] => inr []
  | frac :: fracs' =>
      match py_int (py_mul (py_float n) frac) with
      | inl e => inl e
      | inr k =>
          match subset_sizes_of n fracs' with
          | inl e => inl e
          | inr ks => inr (k :: ks)
          end
      end
  end.

Definition Zsum (l : list Z) : Z := fold_left Z.add l 0.

(** A fraction in (0, 1]. *)
Definition unit_fraction (f : float) : Prop :=
  valid_binary 53 1024 f = true /\
  flt (py_float 0) f = true /\ fle f (py_float 1) = true.

End Python.

(** ** Sample inputs

    The scenario of the spec: 2 observations, 3 predictors, 4 features, a
    dataset of 100 samples, the fractions [0.6] and [0.2], and tensors of
    torch's default [float32]. *)

Definition f32_quarter : float := S754_finite false 8388608 (-25).
Definition f32_half : float := S754_finite false 8388608 (-24).
Definition f32_one : float := S754_finite false 8388608 (-23).
Definition f32_two : float := S754_finite false 8388608 (-22).
(** The largest finite [float32], about [3.4e38]. *)
Definition f32_max : float := S754_finite false 16777215 104.

(** A tensor of two or of three dimensions from its rows. *)
Definition tensor2 (cols : nat) (rows : list (list float)) : tensor float :=
  mkT [length rows; cols]
      (fun i => nth (nth 1 i 0) (nth (nth 0 i 0) rows []) S754_nan).

Definition tensor3 (rows cols : nat) (blocks : list (list (list float)))
  : tensor float :=
  mkT [length blocks; rows; cols]
      (fun i => nth (nth 2 i 0)
                    (nth (nth 1 i 0) (nth (nth 0 i 0) blocks []) []) S754_nan).

(** The Python literals [0.6], [0.2], [0.01] and [1.0]. *)
Definition py_0_6 : float := SFdiv 53 1024 (py_float 6) (py_float 10).
Definition py_0_2 : float := SFdiv 53 1024 (py_float 2) (py_float 10).
Definition py_0_01 : float := SFdiv 53 1024 (py_float 1) (py_float 100).
Definition py_1_0 : float := py_float 1.

Definition sample_dataset (n : nat) : Dataset :=
  mkDataset (full [n; 3] f32_one) (full [n; 4] f32_half).

Definition sample_observations : tensor float := full [2; 3; 4] f32_half.

(** A split that hands out the dataset itself for every length. *)
Definition sample_split (d : Dataset) (lengths : list Z) : list Dataset :=
  map (fun n => sample_dataset (Z.to_nat n)) lengths.

Definition sample_self (val : option Dataset) : ReferenceClass :=
  mkReferenceClass "test learning reference class -" 2 py_0_01 "cpu"
    (sample_dataset 60) val (sample_dataset 20).

(** A gradient of the shape of the weights, error rates in [0, 1] of shape
    [2, 3], and the 1-norm in the place of the 2-norm. *)
Definition sample_proj_grad (m : LinearModel) (X y : tensor float) : tensor float :=
  full (size m) f32_quarter.

Definition sample_rate (m : LinearModel) (X y : tensor float) : tensor float :=
  tensor2 3 [[f32_half; f32_quarter; f32_quarter]; [f32_one; f32_half; f32_half]].

Definition sample_norm (l : list float) : float :=
  fold_left (SFadd 24 128) (map SFabs l) fzero.

(** Inputs on which the mask arithmetic meets entries that are not finite:
    an infinite current weight that is not selected, and a NaN current
    error. *)
Definition poisoned_curr_error : tensor float :=
  tensor2 2 [[f32_half; f32_half]; [f32_half; S754_nan]].
Definition poisoned_min_error : tensor float := full [2; 2] f32_quarter.
Definition poisoned_curr_weight : tensor float :=
  tensor3 2 2 [[[S754_infinity false; f32_two]; [f32_two; f32_two]];
               [[f32_two; f32_two]; [f32_two; f32_two]]].
Definition poisoned_min_weight : tensor float := full [2; 2; 2] f32_one.

(** A run whose live weights overflow: finite weights at the largest
    [float32], the learning rate [1.0], a gradient of [-f32_max], and a
    validation error of [1.0] throughout. *)
Definition overflow_self : ReferenceClass :=
  mkReferenceClass "test learning reference class -" 1 py_1_0 "cpu"
    (sample_dataset 60) (Some (sample_dataset 20)) (sample_dataset 20).

Definition overflow_observations : tensor float := full [2; 3; 4] f32_max.

Definition overflow_proj_grad (m : LinearModel) (X y : tensor float) : tensor float :=
  full (size m) (SFopp f32_max).

Definition unit_rate (m : LinearModel) (X y : tensor float) : tensor float :=
  full [2; 3] f32_one.

(** Validation errors of which one is not a number, as a rate of the form
    0 / 0 is. *)
Definition nan_rate (m : LinearModel) (X y : tensor float) : tensor float :=
  tensor2 3 [[f32_half; f32_quarter; f32_quarter]; [f32_one; f32_half; S754_nan]].

(** Observations with a single feature. *)
Definition one_feature_observations : tensor float := full [2; 3; 1] f32_half.

Definition one_feature_dataset (n : nat) : Dataset :=
  mkDataset (full [n; 3] f32_one) (full [n; 1] f32_half).

Definition one_feature_self : ReferenceClass :=
  mkReferenceClass "test learning reference class -" 2 py_0_01 "cpu"
    (one_feature_dataset 60) (Some (one_feature_dataset 20))
    (one_feature_dataset 20).

(** Observations with a single predictor, and error rates of their shape
    [[2; 1]]. *)
Definition one_predictor_observations : tensor float := full [2; 1; 4] f32_half.

Definition one_predictor_rate (m : LinearModel) (X y : tensor float)
  : tensor float :=
  tensor2 1 [[f32_half]; [f32_quarter]].

(** Observations without a predictor, and error rates of their shape
    [[2; 0]]. *)
Definition no_predictor_observations : tensor float := full [2; 0; 4] f32_half.

Definition no_predictor_rate (m : LinearModel) (X y : tensor float)
  : tensor float :=
  full [2; 0] f32_one.

(** A gradient that is zero everywhere. *)
Definition zero_proj_grad (m : LinearModel) (X y : tensor float) : tensor float :=
  full (size m) fzero.

(** ** The program *)

Section Program.

(** The floating-point format of the tensors. *)
Variables prec emax : Z.

Definition fone : float := SFone prec emax.

(** torch promotes a boolean mask to the floating dtype: [True] is [1.0] and
    [False] is [0.0]. *)
Definition of_bool (b : bool) : float := if b then fone else fzero.

Definition fadd : float -> float -> float := SFadd prec emax.
Definition fmul : float -> float -> float := SFmul prec emax.
Definition fvalid : float -> bool := valid_binary prec emax.

(** [x * mask]: a float tensor entry times a boolean tensor entry. *)
Definition mul_mask (x : float) (b : bool) : float := fmul x (of_bool b).

(** The methods of the linear model that the spec leaves to it
    ("this spec does not define how gradients or conditional error rates
    are mathematically computed inside the linear model"), and torch's
    2-norm of a vector. *)
Variable proj_grad : LinearModel -> tensor float -> tensor float -> tensor float.
Variable conditional_one_rate : LinearModel -> tensor float -> tensor float -> tensor float.
Variable norm2 : list float -> float.

(** Modelled from the spec: "update(delta) (in-place additive update)";
    [proj_grad] returns a "gradient tensor matching weight shape", and the
    weights keep their shape. *)
Definition update (m : LinearModel) (delta : tensor float) : LinearModel :=
  mkLinearModel
    (mkT (shape (weights m))
         (fun i => fadd (elem (weights m) i) (elem delta i))).

(** Modelled from the spec: "reduce(ids, dim) -> tensor with that axis
    collapsed by gather", for [dim = 1]: "gathering, for each observation,
    the weight vector at index min_ids[o] along the predictor axis". *)
Definition reduce (m : LinearModel) (ids : tensor nat) : option LinearModel :=
  match shape (weights m) with
  | s0 :: s1 :: rest =>
      Some (mkLinearModel
              (mkT (s0 :: rest)
                   (fun i => elem (weights m)
                               (hd 0 i :: elem ids [hd 0 i] :: tl i))))
  | _ => None
  end.

(** A Python float (binary64) as a scalar of the tensors' format. *)
Definition cast (x : float) : float :=
  match x with
  | S754_finite s m e => binary_round prec emax s m e
  | _ => x
  end.

(** The Python literal [0.025]. *)
Definition py_0_025 : float :=
  SFdiv 53 1024 (py_float 25) (py_float 1000).

(** [torch.norm(t, p=2, dim=-1)]. *)
Definition norm_last (t : tensor float) : tensor float :=
  mkT (removelast (shape t)) (fun i => norm2 (lane_last t i)).

(** *** [error_tracker]

    The tensors of this development carry no device: [.to(device)] leaves
    shape and entries as they are, and [device] is not used.  The runs
    described are those whose tensors all live on [self.device]; torch
    raises when the operands of the merge live on different devices. *)
Definition error_tracker (weight_shape : list nat) (device : string)
  : tensor float * tensor float :=
  let weights := squeeze (full weight_shape fzero) in
  let error := squeeze (full (removelast weight_shape) (fone)) in
  (weights, error).

(** *** [grad_update]: the model and the progress bar after the call. *)
Definition grad_update (self : ReferenceClass) (lin_model : LinearModel)
    (labels features : tensor float) (bar : progress) : LinearModel * progress :=
  let proj_grads := proj_grad lin_model features (transpose labels) in
  let lin_model :=
    update lin_model (tmap (fmul (cast (SFopp (lr self)))) proj_grads) in
  let bar :=
    set_n bar (count_true (tmap (fun x => flt x (cast py_0_025))
                                (norm_last proj_grads))) in
  (lin_model, refresh bar).

(** *** [pairwise_select] *)
Definition pairwise_select (curr_error min_error curr_weight min_weight : tensor float)
  : option (tensor float * tensor float) :=
  indices <- tmap2 flt curr_error min_error ;;
  kept_e <- tmap2 (mul_mask) min_error (tnot indices) ;;
  new_e <- tmap2 (mul_mask) curr_error indices ;;
  min_error <- tmap2 (fadd) kept_e new_e ;;
  kept_w <- tmap2 (mul_mask) min_weight (tnot (unsqueeze_last indices)) ;;
  new_w <- tmap2 (mul_mask) curr_weight (unsqueeze_last indices) ;;
  min_weight <- tmap2 (fadd) kept_w new_w ;;
  Some (min_weight, min_error).

(** *** [PGDOptim] *)

(** One iteration of the loop with a validation set. *)
Definition val_step (self : ReferenceClass)
    (labels_train features_train labels_val features_val : tensor float)
    (st : val_state) : option val_state :=
  let '(lin_model, bar, min_weights, min_errors) := st in
  let '(lin_model, bar) := grad_update self lin_model labels_train features_train bar in
  let conditional_error_rates :=
    conditional_one_rate lin_model features_val (transpose labels_val) in
  match pairwise_select conditional_error_rates min_errors
                        (weights lin_model) min_weights with
  | Some (min_weights, min_errors) => Some (lin_model, bar, min_weights, min_errors)
  | None => None
  end.

(** [for i in range(n)] around [val_step]. *)
Fixpoint val_loop (n : nat) (self : ReferenceClass)
    (labels_train features_train labels_val features_val : tensor float)
    (st : val_state) : option val_state :=
  match n with
  | 0 => Some st
  | S n' =>
      st' <- val_step self labels_train features_train labels_val features_val st ;;
      val_loop n' self labels_train features_train labels_val features_val st'
  end.

(** [for i in range(n)] around [grad_update] alone. *)
Fixpoint train_loop (n : nat) (self : ReferenceClass)
    (labels_train features_train : tensor float)
    (st : LinearModel * progress) : LinearModel * progress :=
  match n with
  | 0 => st
  | S n' =>
      train_loop n' self labels_train features_train
        (grad_update self (fst st) labels_train features_train (snd st))
  end.

Definition PGDOptim (self : ReferenceClass) (lin_model : LinearModel)
    (dataset_train : Dataset) (dataset_val : option Dataset) (bar : progress)
  : option (LinearModel * progress) :=
  let '(labels_train, features_train) := getall dataset_train in
  match dataset_val with
  | Some dataset_val =>
      let '(labels_val, features_val) := getall dataset_val in
      let '(min_weights, min_errors) :=
        error_tracker (size lin_model) (device self) in
      st <- val_loop (Z.to_nat (num_iter self)) self
              labels_train features_train labels_val features_val
              (lin_model, bar, min_weights, min_errors) ;;
      let '(_, bar, min_weights, _) := st in
      Some (mkLinearModel min_weights, close bar)
  | None =>
      let '(lin_model, bar) :=
        train_loop (Z.to_nat (num_iter self)) self labels_train features_train
                   (lin_model, bar) in
      Some (lin_model, close bar)
  end.

(** *** [forward]: the returned triple, and the progress bar left in
    [self.converged_bar]. *)
Definition forward (self : ReferenceClass) (observations : tensor float)
  : option (tensor float * tensor nat * LinearModel * progress) :=
  match shape observations with
  | size0 :: size1 :: _ =>
      let converged_bar := tqdm (size0 * size1) in
      sb <- PGDOptim self (mkLinearModel observations)
              (dataset_train self) (dataset_val self) converged_bar ;;
      let '(selectors, converged_bar) := sb in
      let '(labels_eval, features_eval) := getall (dataset_eval self) in
      mm <- torch_min_dim1
              (conditional_one_rate selectors features_eval (transpose labels_eval)) ;;
      let '(min_val, min_ids) := mm in
      reduced <- reduce selectors min_ids ;;
      Some (min_val, min_ids, reduced, converged_bar)
  | _ => None
  end.

(** *** [__init__] *)

(** [torch.utils.data.random_split], for the permutation it draws. *)
Variable random_split : Dataset -> list Z -> list Dataset.

Definition init (prev_header : string) (dataset : Dataset)
    (subset_fracs : list float) (num_iter : Z) (lr : float) (device : string)
  : list init_event * (exn + ReferenceClass) :=
  let header := (prev_header ++ " learning reference class -")%string in
  let log := [Print_feature_size (len dataset) (dim_feature dataset);
              Print_label_size (len dataset) (dim_label dataset)] in
  if flt (py_float 1%Z) (py_sum subset_fracs)
  then (log, inl (ValueError (header ++ " sum of fractions of subsets exceed 1.")))
  else
    match subset_sizes_of (Z.of_nat (len dataset)) subset_fracs with
    | inl e => (log, inl e)
    | inr subset_sizes =>
        let lengths :=
          (subset_sizes ++ [(Z.of_nat (len dataset) - Zsum subset_sizes)%Z])%list in
        match subset_sizes with
        | [_] =>
            (log ++ [Random_split lengths],
             match random_split dataset lengths with
             | [train; eval] =>
                 inr (mkReferenceClass header num_iter lr device train None eval)
             | _ => inl UnpackError
             end)%list
        | [_; _] =>
            (log ++ [Random_split lengths],
             match random_split dataset lengths with
             | [train; val; eval] =>
                 inr (mkReferenceClass header num_iter lr device train (Some val) eval)
             | _ => inl UnpackError
             end)%list
        | _ => (log, inl (ValueError (header ++ " Invalid number of subset sizes.")))
        end
    end.

(** *** Notions for the statements *)

(** [kept * ~b + new * b], the arithmetic of [pairwise_select] at one
    entry. *)
Definition blend (kept new : float) (b : bool) : float :=
  fadd (mul_mask kept (negb b)) (mul_mask new b).

(** One gradient step on the model alone. *)
Definition grad_step (self : ReferenceClass) (labels features : tensor float)
    (lin_model : LinearModel) : LinearModel :=
  fst (grad_update self lin_model labels features (tqdm 0)).

(** The shapes of the tracked best weights and errors next to weights of
    shape [[nobs; npred; dim]]: the full shapes, or the full shapes without leading
    dimensions (what [squeeze] leaves of them when [nobs] is 1). *)
Definition tracker_shapes (nobs npred dim : nat) (mw me : tensor float) : Prop :=
  exists pre t, pre ++ t = [nobs; npred] /\ shape me = t /\ shape mw = t ++ [dim].

Definition shape_inv (nobs npred dim : nat) (st : val_state) : Prop :=
  shape (weights (st_model st)) = [nobs; npred; dim] /\
  tracker_shapes nobs npred dim (st_weights st) (st_errors st).

(** The contract of [conditional_one_rate]: one error for every observation
    and predictor. *)
Definition rate_shape (nobs npred dim : nat) : Prop :=
  forall m X y, shape (weights m) = [nobs; npred; dim] ->
                shape (conditional_one_rate m X y) = [nobs; npred].

(** The assumption of the spec on the error rates: they "are assumed to lie
    in [0,1]" (and are floats of the format). *)
Definition rate_unit (nobs npred dim : nat) : Prop :=
  forall m X y i,
    shape (weights m) = [nobs; npred; dim] -> in_range [nobs; npred] i ->
    fvalid (elem (conditional_one_rate m X y) i) = true /\
    fle fzero (elem (conditional_one_rate m X y) i) = true /\
    fle (elem (conditional_one_rate m X y) i) fone = true.

(** The tracked errors are finite floats of the format. *)
Definition errors_finite (st : val_state) : Prop :=
  forall j, in_range (shape (st_errors st)) j ->
    fvalid (elem (st_errors st) j) = true /\
    is_finite (elem (st_errors st) j) = true.

(** The two errors that [__init__] raises itself. *)
Definition config_error (prev_header : string) (r : exn + ReferenceClass) : Prop :=
  r = inl (ValueError ((prev_header ++ " learning reference class -")
                       ++ " sum of fractions of subsets exceed 1."))
  \/ r = inl (ValueError ((prev_header ++ " learning reference class -")
                          ++ " Invalid number of subset sizes.")).

(** What [random_split] is relied on for: one subset for every length. *)
Definition split_contract : Prop :=
  forall d lengths, length (random_split d lengths) = length lengths.

(** Every error rate on the validation set is at least [1.0] (and a finite
    float of the format). *)
Definition rate_at_least_one (nobs npred dim : nat) : Prop :=
  forall m X y i,
    shape (weights m) = [nobs; npred; dim] -> in_range [nobs; npred] i ->
    fvalid (elem (conditional_one_rate m X y) i) = true /\
    is_finite (elem (conditional_one_rate m X y) i) = true /\
    fle fone (elem (conditional_one_rate m X y) i) = true.

(** The tracker still holds what [error_tracker] put into it. *)
Definition tracker_initial (st : val_state) : Prop :=
  (forall j, in_range (shape (st_weights st)) j -> elem (st_weights st) j = fzero) /\
  (forall j, in_range (shape (st_errors st)) j -> elem (st_errors st) j = fone).


(** *** Notions for the statements about whole runs *)

(** The live model after [k] gradient updates. *)
Definition iterate (self : ReferenceClass) (labels features : tensor float)
    (lin_model : LinearModel) (k : nat) : LinearModel :=
  Nat.iter k (grad_step self labels features) lin_model.

(** The number [grad_update] writes into the counter of the bar: the
    entries of the gradient norm of [lin_model] below the threshold. *)
Definition converged (lin_model : LinearModel) (labels features : tensor float)
  : nat :=
  count_true (tmap (fun x => flt x (cast py_0_025))
                   (norm_last (proj_grad lin_model features (transpose labels)))).

(** The contract of [proj_grad]: a gradient of the shape of the weights. *)
Definition grad_shape (nobs npred dim : nat) : Prop :=
  forall m X y, shape (weights m) = [nobs; npred; dim] ->
                shape (proj_grad m X y) = [nobs; npred; dim].

(** Every weight of the model is a finite float of the format. *)
Definition weights_finite (m : LinearModel) : Prop :=
  forall i, in_range (shape (weights m)) i ->
    fvalid (elem (weights m) i) = true /\ is_finite (elem (weights m) i) = true.

(** Among the errors [errs 1 .. errs n] of one selector, [best] is the
    iteration the loop tracks: none while no error was below [1.0], and
    else the first iteration with the smallest error. *)
Definition first_best (errs : nat -> float) (n : nat) (best : option nat) : Prop :=
  match best with
  | None => forall j, 1 <= j <= n -> flt (errs j) fone = false
  | Some k =>
      1 <= k <= n /\ flt (errs k) fone = true /\
      (forall j, 1 <= j <= n -> fle (errs k) (errs j) = true) /\
      (forall j, 1 <= j < k -> flt (errs k) (errs j) = true)
  end.

(** The state of the loop after [n] iterations tracks, for every
    observation and predictor, the error and the weights of the first best
    iteration.  The tracker is read through broadcasting: before the first
    merge it has the squeezed shapes. *)
Definition tracked (self : ReferenceClass)
    (labels_train features_train labels_val features_val : tensor float)
    (lin_model : LinearModel) (nobs npred dim n : nat) (st : val_state) : Prop :=
  let model k := iterate self labels_train features_train lin_model k in
  let errs k i :=
    elem (conditional_one_rate (model k) features_val (transpose labels_val)) i in
  st_model st = model n /\
  (1 <= n -> shape (st_errors st) = [nobs; npred] /\
             shape (st_weights st) = [nobs; npred; dim]) /\
  forall i, in_range [nobs; npred] i ->
    exists best,
      first_best (fun k => errs k i) n best /\
      keeps (match best with Some k => errs k i | None => fone end)
            (elem (st_errors st) (bidx (shape (st_errors st)) i)) /\
      forall d, d < dim ->
        keeps (match best with
               | Some k => elem (weights (model k)) (i ++ [d])
               | None => fzero
               end)
              (elem (st_weights st) (bidx (shape (st_weights st)) (i ++ [d]))).

(** The bar after [n] gradient updates from [lin_model]: every update has
    displayed the count of the model before it. *)
Definition bar_after (self : ReferenceClass) (labels features : tensor float)
    (lin_model : LinearModel) (n : nat) (bar : progress) : progress :=
  let count k := converged (iterate self labels features lin_model k)
                           labels features in
  mkProgress (bar_total bar)
             (match n with 0 => bar_n bar | S k => count k end)
             (rev (map count (seq 0 n)) ++ bar_shown bar)
             (bar_closed bar).

(** ** The order on floats *)

Local Open Scope Z_scope.

Lemma SFcompare_key (x y : float) :
  is_nan x = false -> is_nan y = false ->
  match SFcompare x y with
  | Some Lt => key_lt (order_key x) (order_key y)
  | Some Eq => order_key x = order_key y
  | Some Gt => key_lt (order_key y) (order_key x)
  | None => False
  end.
Proof.
  destruct x as [[]|[]| |[] mx ex], y as [[]|[]| |[] my ey];
    simpl; intros Hx Hy; try discriminate; try reflexivity; try lia.
  - destruct (Z.compare_spec ex ey) as [E|L|G]; simpl; try lia.
    subst. change (Pos.compare_cont Eq mx my) with (Pos.compare mx my).
    destruct (Pos.compare_spec mx my) as [E'|L'|G']; simpl; try lia.
    subst; reflexivity.
  - destruct (Z.compare_spec ex ey) as [E|L|G]; simpl; try lia.
    subst. change (Pos.compare_cont Eq mx my) with (Pos.compare mx my).
    destruct (Pos.compare_spec mx my) as [E'|L'|G']; simpl; try lia.
    subst; reflexivity.
Qed.

Ltac key_cases :=
  repeat match goal with
         | |- context [order_key ?x] =>
             let a := fresh "a" in let b := fresh "b" in let c := fresh "c" in
             destruct (order_key x) as [[a b] c]
         | H : context [order_key ?x] |- _ =>
             let a := fresh "a" in let b := fresh "b" in let c := fresh "c" in
             destruct (order_key x) as [[a b] c]
         end;
  unfold key_lt in *; cbv beta iota in *.

Lemma flt_iff (x y : float) :
  flt x y = true <->
  is_nan x = false /\ is_nan y = false /\ key_lt (order_key x) (order_key y).
Proof.
  unfold flt, SFltb.
  destruct (is_nan x) eqn:Hx.
  { destruct x; try discriminate. simpl. split; [discriminate | intros [? _]; discriminate]. }
  destruct (is_nan y) eqn:Hy.
  { destruct y; try discriminate. destruct x; simpl; (split; [discriminate | intros (_ & ? & _); discriminate]). }
  pose proof (SFcompare_key x y Hx Hy) as H.
  destruct (SFcompare x y) as [[]|]; [| |  |contradiction].
  - split; [discriminate|]. intros (_ & _ & L). rewrite H in L. key_cases. lia.
  - split; auto.
  - split; [discriminate|]. intros (_ & _ & L). key_cases. lia.
Qed.

Lemma fle_iff (x y : float) :
  fle x y = true <->
  is_nan x = false /\ is_nan y = false /\
  (key_lt (order_key x) (order_key y) \/ order_key x = order_key y).
Proof.
  unfold fle, SFleb.
  destruct (is_nan x) eqn:Hx.
  { destruct x; try discriminate. simpl. split; [discriminate | intros [? _]; discriminate]. }
  destruct (is_nan y) eqn:Hy.
  { destruct y; try discriminate. destruct x; simpl; (split; [discriminate | intros (_ & ? & _); discriminate]). }
  pose proof (SFcompare_key x y Hx Hy) as H.
  destruct (SFcompare x y) as [[]|]; [| |  |contradiction].
  - split; auto.
  - split; auto.
  - split; [discriminate|]. intros (_ & _ & [L | E]).
    + key_cases. lia.
    + rewrite E in H. key_cases. lia.
Qed.

Lemma feq_iff (x y : float) :
  feq x y = true <->
  is_nan x = false /\ is_nan y = false /\ order_key x = order_key y.
Proof.
  unfold feq, SFeqb.
  destruct (is_nan x) eqn:Hx.
  { destruct x; try discriminate. simpl. split; [discriminate | intros [? _]; discriminate]. }
  destruct (is_nan y) eqn:Hy.
  { destruct y; try discriminate. destruct x; simpl; (split; [discriminate | intros (_ & ? & _); discriminate]). }
  pose proof (SFcompare_key x y Hx Hy) as H.
  destruct (SFcompare x y) as [[]|]; [| |  |contradiction].
  - split; auto.
  - split; [discriminate|]. intros (_ & _ & E). rewrite E in H. key_cases. lia.
  - split; [discriminate|]. intros (_ & _ & E). rewrite E in H. key_cases. lia.
Qed.

(** Without NaN the order is total: [not (x <= y)] is [y < x]. *)
Lemma fle_false_flt (x y : float) :
  is_nan x = false -> is_nan y = false -> fle x y = false -> flt y x = true.
Proof.
  intros Hx Hy H. apply flt_iff. repeat split; auto.
  destruct (fle x y) eqn:E; [discriminate|]. clear H.
  assert (N : ~ (key_lt (order_key x) (order_key y) \/ order_key x = order_key y)).
  { intro C. assert (fle x y = true) by (apply fle_iff; auto). congruence. }
  destruct (order_key x) as [[x1 x2] x3], (order_key y) as [[y1 y2] y3].
  unfold key_lt in *.
  assert (N1 : ~ (x1 = y1 /\ x2 = y2 /\ x3 = y3)).
  { intros (-> & -> & ->). apply N. right. reflexivity. }
  assert (N2 : ~ (x1 < y1 \/ x1 = y1 /\ (x2 < y2 \/ x2 = y2 /\ x3 < y3))) by tauto.
  lia.
Qed.

Lemma flt_fle (x y : float) : flt x y = true -> fle x y = true.
Proof.
  intro H. apply flt_iff in H. apply fle_iff. tauto.
Qed.

Lemma flt_fle_false (x y : float) : flt x y = true -> fle y x = false.
Proof.
  intro H. apply flt_iff in H. destruct H as (Hx & Hy & L).
  destruct (fle y x) eqn:E; [|reflexivity].
  apply fle_iff in E. destruct E as (_ & _ & [L' | E]).
  - key_cases. lia.
  - rewrite E in L. key_cases. lia.
Qed.

Lemma fle_flt_false (x y : float) : fle x y = true -> flt y x = false.
Proof.
  intro H. destruct (flt y x) eqn:E; [|reflexivity].
  apply flt_fle_false in E. congruence.
Qed.

Lemma fle_refl (x : float) : is_nan x = false -> fle x x = true.
Proof. intro H. apply fle_iff. auto. Qed.

Lemma fle_trans (x y z : float) :
  fle x y = true -> fle y z = true -> fle x z = true.
Proof.
  intros H1 H2. apply fle_iff in H1, H2. apply fle_iff.
  destruct H1 as (Hx & Hy & H1), H2 as (_ & Hz & H2). repeat split; auto.
  destruct H1 as [H1|H1], H2 as [H2|H2].
  - left. key_cases. lia.
  - left. rewrite <- H2. exact H1.
  - left. rewrite H1. exact H2.
  - right. congruence.
Qed.

Lemma flt_fle_trans (x y z : float) :
  flt x y = true -> fle y z = true -> flt x z = true.
Proof.
  intros H1 H2. apply flt_iff in H1. apply fle_iff in H2. apply flt_iff.
  destruct H1 as (Hx & Hy & H1), H2 as (_ & Hz & H2). repeat split; auto.
  destruct H2 as [H2|H2].
  - key_cases. lia.
  - rewrite <- H2. exact H1.
Qed.

Lemma flt_feq_false (x y : float) : flt x y = true -> feq y x = false.
Proof.
  intro H. apply flt_iff in H. destruct H as (Hx & Hy & L).
  destruct (feq y x) eqn:E; [|reflexivity].
  apply feq_iff in E. destruct E as (_ & _ & E). rewrite E in L. key_cases. lia.
Qed.

(** ** Facts about the mask arithmetic *)

Hypothesis Hprec : 1 < prec.
Hypothesis Hemax : prec < emax.

Lemma iter_pos_nat {A} (f : A -> A) (p : positive) (x : A) :
  iter_pos f p x = Nat.iter (Pos.to_nat p) f x.
Proof.
  revert x. induction p as [p IH | p IH |]; intro x.
  - rewrite Pos2Nat.inj_xI, Nat.iter_succ_r.
    replace (2 * Pos.to_nat p)%nat with (Pos.to_nat p + Pos.to_nat p)%nat by lia.
    rewrite Nat.iter_add. simpl iter_pos. rewrite !IH. reflexivity.
  - rewrite Pos2Nat.inj_xO.
    replace (2 * Pos.to_nat p)%nat with (Pos.to_nat p + Pos.to_nat p)%nat by lia.
    rewrite Nat.iter_add. simpl iter_pos. rewrite !IH. reflexivity.
  - reflexivity.
Qed.

Lemma pos_iter_nat {A} (f : A -> A) (p : positive) (x : A) :
  Pos.iter f x p = Nat.iter (Pos.to_nat p) f x.
Proof.
  induction p as [|p IH] using Pos.peano_ind.
  - reflexivity.
  - rewrite Pos.iter_succ, Pos2Nat.inj_succ, IH. reflexivity.
Qed.

Lemma digits2_pos_shift (n : nat) (m : positive) :
  Zpos (digits2_pos (Nat.iter n xO m)) = Zpos (digits2_pos m) + Z.of_nat n.
Proof.
  induction n as [|n IH].
  - simpl. lia.
  - rewrite Nat2Z.inj_succ. simpl Nat.iter. simpl digits2_pos.
    rewrite Pos2Z.inj_succ, IH. lia.
Qed.

Lemma shr_1_shift (n : nat) (m : positive) :
  Nat.iter n shr_1 (Build_shr_record (Zpos (Nat.iter n xO m)) false false)
  = Build_shr_record (Zpos m) false false.
Proof.
  induction n as [|n IH].
  - reflexivity.
  - rewrite Nat.iter_succ_r. simpl. exact IH.
Qed.

Lemma mul_shift (n : nat) (m : positive) :
  (m * Nat.iter n xO 1)%positive = Nat.iter n xO m.
Proof.
  induction n as [|n IH]; simpl.
  - apply Pos.mul_1_r.
  - rewrite Pos.mul_xO_r, IH. reflexivity.
Qed.

(** A canonical mantissa and exponent are left alone by rounding. *)
Lemma binary_round_aux_bounded (s : bool) (m : positive) (e : Z) :
  bounded prec emax m e = true ->
  binary_round_aux prec emax s (Zpos m) e loc_Exact = S754_finite s m e.
Proof.
  unfold bounded, canonical_mantissa. intro H.
  apply andb_true_iff in H. destruct H as [Hc Hb].
  apply Z.eqb_eq in Hc.
  unfold binary_round_aux, shr_fexp. cbn [Zdigits2 shr_record_of_loc].
  rewrite Hc, Z.sub_diag.
  cbn [shr shr_m loc_of_shr_record round_nearest_even Zdigits2].
  rewrite Hc, Z.sub_diag. cbn [shr shr_m]. rewrite Hb. reflexivity.
Qed.

(** The same number written with [n] extra trailing zero bits rounds back to
    the canonical pair. *)
Lemma binary_round_aux_shifted (s : bool) (m : positive) (e : Z) (n : nat) :
  bounded prec emax m e = true ->
  binary_round_aux prec emax s (Zpos (Nat.iter n xO m)) (e - Z.of_nat n) loc_Exact
  = S754_finite s m e.
Proof.
  intro H. destruct n as [|n].
  - simpl Nat.iter. rewrite Z.sub_0_r. apply binary_round_aux_bounded, H.
  - pose proof H as H'. unfold bounded, canonical_mantissa in H.
    apply andb_true_iff in H. destruct H as [Hc Hb]. apply Z.eqb_eq in Hc.
    unfold binary_round_aux at 1. unfold shr_fexp at 1.
    unfold Zdigits2. rewrite digits2_pos_shift.
    replace (Zpos (digits2_pos m) + Z.of_nat (S n) + (e - Z.of_nat (S n)))
      with (Zpos (digits2_pos m) + e) by lia.
    rewrite Hc.
    replace (e - (e - Z.of_nat (S n))) with (Zpos (Pos.of_succ_nat n)) by lia.
    unfold shr. simpl shr_record_of_loc.
    rewrite iter_pos_nat, SuccNat2Pos.id_succ.
    pose proof (shr_1_shift (S n) m) as E.
    change (Nat.iter (S n) xO m) with (xO (Nat.iter n xO m)) in E.
    rewrite E. clear E.
    replace (e - Z.of_nat (S n) + Zpos (Pos.of_succ_nat n)) with e by lia.
    cbn [shr_m loc_of_shr_record round_nearest_even].
    unfold shr_fexp. cbn [Zdigits2 shr_record_of_loc].
    rewrite Hc, Z.sub_diag. cbn [shr shr_m]. rewrite Hb. reflexivity.
Qed.

Lemma fone_eq :
  fone
  = S754_finite false (Nat.iter (Z.to_nat (prec - 1)) xO 1%positive) (1 - prec).
Proof.
  unfold fone, SFone, binary_round. simpl digits2_pos.
  assert (Hf : fexp prec emax (1 + 0) = 1 - prec).
  { unfold fexp, emin. lia. }
  rewrite Hf. unfold shl_align.
  replace (1 - prec - 0) with (Zneg (Z.to_pos (prec - 1))) by lia.
  rewrite pos_iter_nat.
  replace (Pos.to_nat (Z.to_pos (prec - 1))) with (Z.to_nat (prec - 1)) by lia.
  replace (Zneg (Z.to_pos (prec - 1))) with (1 - prec) by lia.
  apply binary_round_aux_bounded.
  unfold bounded, canonical_mantissa.
  rewrite digits2_pos_shift. simpl digits2_pos.
  rewrite Z2Nat.id by lia.
  apply andb_true_iff. split.
  - apply Z.eqb_eq. unfold fexp, emin. lia.
  - apply Z.leb_le. lia.
Qed.

(** Multiplying by the mask value [True] (that is, by [1.0]) is exact. *)
Lemma mul_mask_true (x : float) :
  fvalid x = true -> mul_mask x true = x.
Proof.
  unfold mul_mask, of_bool, fmul. rewrite fone_eq.
  destruct x as [s | s | | s m e]; cbn [SFmul fvalid valid_binary]; intro H.
  - rewrite xorb_false_r. reflexivity.
  - rewrite xorb_false_r. reflexivity.
  - reflexivity.
  - rewrite xorb_false_r, mul_shift.
    replace (e + (1 - prec)) with (e - Z.of_nat (Z.to_nat (prec - 1))) by lia.
    apply binary_round_aux_shifted, H.
Qed.

(** Multiplying by the mask value [False] (by [0.0]) gives a signed zero for
    a finite entry, and NaN for an infinite or NaN entry. *)
Lemma mul_mask_false (x : float) :
  mul_mask x false
  = match x with
    | S754_zero s | S754_finite s _ _ => S754_zero s
    | _ => S754_nan
    end.
Proof.
  destruct x as [s | s | | s m e]; simpl; try reflexivity;
    rewrite xorb_false_r; reflexivity.
Qed.

(** [x * True + y * False] keeps [x] when the discarded [y] is finite. *)
Lemma blend_keeps_left (x y : float) :
  fvalid x = true -> is_finite y = true ->
  keeps x (fadd (mul_mask x true) (mul_mask y false)).
Proof.
  intros Hx Hy. rewrite mul_mask_true by exact Hx. rewrite mul_mask_false.
  unfold keeps, fadd.
  destruct y as [sy | sy | | sy my ey]; try discriminate;
    destruct x as [[] | sx | | sx mx ex], sy; simpl; auto.
Qed.

(** [x * False + y * True] keeps [y] when the discarded [x] is finite. *)
Lemma blend_keeps_right (x y : float) :
  is_finite x = true -> fvalid y = true ->
  keeps y (fadd (mul_mask x false) (mul_mask y true)).
Proof.
  intros Hx Hy. rewrite (mul_mask_true y) by exact Hy. rewrite mul_mask_false.
  unfold keeps, fadd.
  destruct x as [sx | sx | | sx mx ex]; try discriminate;
    destruct y as [[] | sy | | sy my ey], sx; simpl; auto.
Qed.

(** A discarded entry that is infinite or NaN turns the sum into NaN. *)
Lemma blend_poisoned_left (x y : float) :
  is_finite y = false ->
  fadd (mul_mask x true) (mul_mask y false) = S754_nan.
Proof.
  intro Hy. rewrite mul_mask_false. unfold fadd.
  destruct y; try discriminate;
    destruct (mul_mask x true) as [[]|[]| |[] ? ?]; reflexivity.
Qed.

Lemma blend_poisoned_right (x y : float) :
  is_finite x = false ->
  fadd (mul_mask x false) (mul_mask y true) = S754_nan.
Proof.
  intro Hx. rewrite mul_mask_false. unfold fadd.
  destruct x; try discriminate; reflexivity.
Qed.

Lemma keeps_key (x r : float) : keeps x r -> order_key r = order_key x.
Proof. intros [-> | [-> ->]]; reflexivity. Qed.

Lemma keeps_nan (x r : float) : keeps x r -> is_nan r = is_nan x.
Proof. intros [-> | [-> ->]]; reflexivity. Qed.

Lemma keeps_finite (x r : float) : keeps x r -> is_finite r = is_finite x.
Proof. intros [-> | [-> ->]]; reflexivity. Qed.

Lemma keeps_valid (x r : float) :
  keeps x r -> fvalid x = true -> fvalid r = true.
Proof. intros [-> | [-> ->]]; auto. Qed.

Local Close Scope Z_scope.

(** ** Facts about shapes and broadcasting *)

Lemma in_range_length (s : list nat) (i : index) :
  in_range s i -> length i = length s.
Proof. apply Forall2_length. Qed.

Lemma in_range_app_inv (s1 s2 : list nat) (i : index) :
  in_range (s1 ++ s2) i ->
  exists i1 i2, i = i1 ++ i2 /\ in_range s1 i1 /\ in_range s2 i2.
Proof.
  intro H. apply Forall2_app_inv_r in H.
  destruct H as (i1 & i2 & H1 & H2 & ->). eauto.
Qed.

Lemma in_range_skipn (pre t : list nat) (i : index) :
  in_range (pre ++ t) i -> in_range t (skipn (length pre) i).
Proof.
  intro H. apply in_range_app_inv in H. destruct H as (i1 & i2 & -> & H1 & H2).
  rewrite <- (in_range_length _ _ H1), skipn_app, skipn_all, Nat.sub_diag.
  exact H2.
Qed.

Lemma in_range_last_inv (s : list nat) (d : nat) (i : index) :
  in_range (s ++ [d]) i ->
  exists i' k, i = i' ++ [k] /\ in_range s i' /\ k < d.
Proof.
  intro H. apply in_range_app_inv in H. destruct H as (i1 & i2 & -> & H1 & H2).
  inversion H2 as [|k d' l l' Hk Hl]; subst. inversion Hl; subst. eauto.
Qed.

Lemma in_range_removelast (s : list nat) (d : nat) (i : index) :
  in_range (s ++ [d]) i -> in_range s (removelast i).
Proof.
  intro H. apply in_range_last_inv in H. destruct H as (i' & k & -> & H & _).
  rewrite removelast_last. exact H.
Qed.

Lemma broadcast_rev_app_l (r q : list nat) :
  broadcast_rev (r ++ q) r = Some (r ++ q).
Proof.
  induction r as [|a r IH]; simpl.
  - destruct q; reflexivity.
  - rewrite IH, Nat.eqb_refl. reflexivity.
Qed.

Lemma broadcast_rev_app_r (r q : list nat) :
  broadcast_rev r (r ++ q) = Some (r ++ q).
Proof.
  induction r as [|a r IH]; simpl.
  - reflexivity.
  - rewrite IH, Nat.eqb_refl. reflexivity.
Qed.

(** A shape broadcasts with any of its suffixes, to itself. *)
Lemma broadcast_shapes_suffix_l (pre t : list nat) :
  broadcast_shapes (pre ++ t) t = Some (pre ++ t).
Proof.
  unfold broadcast_shapes. rewrite rev_app_distr, broadcast_rev_app_l. simpl.
  rewrite <- rev_app_distr, rev_involutive. reflexivity.
Qed.

Lemma broadcast_shapes_suffix_r (pre t : list nat) :
  broadcast_shapes t (pre ++ t) = Some (pre ++ t).
Proof.
  unfold broadcast_shapes. rewrite rev_app_distr, broadcast_rev_app_r. simpl.
  rewrite <- rev_app_distr, rev_involutive. reflexivity.
Qed.

Lemma broadcast_shapes_refl (s : list nat) : broadcast_shapes s s = Some s.
Proof. apply (broadcast_shapes_suffix_l [] s). Qed.

(** Weights of shape [t ++ [dim]] against a mask of shape [pre ++ t ++ [1]]. *)
Lemma broadcast_shapes_mask (pre t : list nat) (dim : nat) :
  broadcast_shapes (t ++ [dim]) ((pre ++ t) ++ [1]) = Some ((pre ++ t) ++ [dim]).
Proof.
  unfold broadcast_shapes. rewrite !rev_app_distr. simpl.
  rewrite broadcast_rev_app_r.
  replace (if dim =? 1 then Some (dim :: rev t ++ rev pre)
           else if dim =? 1 then Some (1 :: rev t ++ rev pre)
                else Some (dim :: rev t ++ rev pre))
    with (Some (dim :: rev t ++ rev pre)) by (destruct (dim =? 1); reflexivity).
  simpl. rewrite rev_app_distr, !rev_involutive. reflexivity.
Qed.

Lemma combine_app_same {A B} (l1 l2 : list A) (k1 k2 : list B) :
  length l1 = length k1 ->
  combine (l1 ++ l2) (k1 ++ k2) = combine l1 k1 ++ combine l2 k2.
Proof.
  revert k1. induction l1 as [|a l1 IH]; intros [|b k1] L; try discriminate.
  - reflexivity.
  - simpl. rewrite IH by (simpl in L; lia). reflexivity.
Qed.

Lemma bidx_id_aux (s : list nat) (i : index) :
  Forall2 lt i s ->
  map (fun dk => if fst dk =? 1 then 0 else snd dk) (combine s i) = i.
Proof.
  induction 1 as [|k d i s Hk _ IH]; simpl.
  - reflexivity.
  - rewrite IH. destruct (Nat.eqb_spec d 1); [f_equal; lia | reflexivity].
Qed.

(** An operand that is a suffix of the result reads the trailing part of
    the index. *)
Lemma bidx_suffix (pre t : list nat) (i : index) :
  in_range (pre ++ t) i -> bidx t i = skipn (length pre) i.
Proof.
  intro H. unfold bidx.
  pose proof (in_range_length _ _ H) as L. rewrite length_app in L.
  replace (length i - length t) with (length pre) by lia.
  apply bidx_id_aux. apply in_range_skipn, H.
Qed.

Lemma bidx_id (s : list nat) (i : index) : in_range s i -> bidx s i = i.
Proof. intro H. apply (bidx_suffix [] s i H). Qed.

(** The mask, of size 1 along the last dimension, is read at 0 there. *)
Lemma bidx_mask (s : list nat) (dim : nat) (i : index) :
  in_range (s ++ [dim]) i -> bidx (s ++ [1]) i = removelast i ++ [0].
Proof.
  intro H. apply in_range_last_inv in H. destruct H as (i' & k & -> & H & Hk).
  unfold bidx. pose proof (in_range_length _ _ H) as L.
  rewrite !length_app, L, Nat.sub_diag. simpl skipn.
  rewrite combine_app_same by (symmetry; exact L).
  rewrite map_app, (bidx_id_aux s i' H), removelast_last. reflexivity.
Qed.


Lemma indices_pairs (nobs npred : nat) :
  indices [nobs; npred]
  = map (fun op => [fst op; snd op]) (list_prod (seq 0 nobs) (seq 0 npred)).
Proof.
  cbn [indices]. generalize (seq 0 nobs) as lo. generalize (seq 0 npred) as lp.
  intros lp lo.
  assert (Hin : forall l : list nat,
             flat_map (fun k => [[k]]) l = map (fun k => [k]) l).
  { induction l as [|a l IH]; simpl; congruence. }
  change (flat_map (fun k => map (cons k) [[]]) lp)
    with (flat_map (fun k => [[k]]) lp).
  rewrite Hin. induction lo as [|o lo IH].
  - reflexivity.
  - cbn [flat_map list_prod]. rewrite IH, map_app, !map_map. reflexivity.
Qed.

Lemma filter_map_length {A B} (f : B -> bool) (h : A -> B) (l : list A) :
  length (filter f (map h l)) = length (filter (fun x => f (h x)) l).
Proof.
  induction l as [|a l IH]; simpl; [reflexivity|].
  destruct (f (h a)); simpl; rewrite IH; reflexivity.
Qed.

Lemma broadcast_rev_refl (r : list nat) : broadcast_rev r r = Some r.
Proof.
  induction r as [|a r IH]; simpl; [reflexivity|].
  rewrite IH, Nat.eqb_refl. reflexivity.
Qed.

(** A mask of shape [s ++ [1]] against weights of shape [s ++ [dim]]. *)
Lemma broadcast_shapes_mask_l (s : list nat) (dim : nat) :
  broadcast_shapes (s ++ [1]) (s ++ [dim]) = Some (s ++ [dim]).
Proof.
  unfold broadcast_shapes. rewrite !rev_app_distr.
  cbn [rev app broadcast_rev]. rewrite broadcast_rev_refl.
  destruct (Nat.eqb_spec 1 dim) as [<-|N]; cbn [Nat.eqb option_map rev];
    rewrite rev_involutive; reflexivity.
Qed.

(** The merge in the words of the spec, entry by entry. *)
Lemma pairwise_select_where_elem (s : list nat) (dim : nat)
    (ce me cw mw : tensor float) :
  shape ce = s -> shape me = s -> shape cw = s ++ [dim] -> shape mw = s ++ [dim] ->
  exists w e,
    pairwise_select_where ce me cw mw = Some (w, e) /\
    shape e = s /\ shape w = s ++ [dim] /\
    (forall i, in_range s i ->
       elem e i = if flt (elem ce i) (elem me i) then elem ce i else elem me i) /\
    (forall i, in_range (s ++ [dim]) i ->
       elem w i = if flt (elem ce (removelast i)) (elem me (removelast i))
                  then elem cw i else elem mw i).
Proof.
  intros Hce Hme Hcw Hmw.
  unfold pairwise_select_where, torch_where, tmap2, unsqueeze_last.
  cbn [shape elem]. rewrite Hce, Hme, Hcw, Hmw.
  repeat (rewrite broadcast_shapes_refl; cbn [shape elem]).
  rewrite broadcast_shapes_mask_l. cbn [shape elem].
  eexists. eexists. split; [reflexivity|]. cbn [shape elem fst snd].
  split; [reflexivity|]. split; [reflexivity|]. split.
  - intros i Hi. rewrite !(bidx_id _ _ Hi). reflexivity.
  - intros i Hi. pose proof (in_range_removelast _ _ _ Hi) as Hr.
    rewrite !(bidx_id _ _ Hi), (bidx_mask _ _ _ Hi), removelast_last.
    rewrite !(bidx_id _ _ Hr). reflexivity.
Qed.
(** ** The merge, entry by entry *)

Lemma pairwise_select_elem (pre t : list nat) (dim : nat)
    (ce me cw mw : tensor float) :
  shape ce = pre ++ t -> shape me = t ->
  shape cw = (pre ++ t) ++ [dim] -> shape mw = t ++ [dim] ->
  exists mw' me',
    pairwise_select ce me cw mw = Some (mw', me') /\
    shape me' = pre ++ t /\ shape mw' = (pre ++ t) ++ [dim] /\
    (forall i, in_range (pre ++ t) i ->
       elem me' i =
       blend (elem me (skipn (length pre) i)) (elem ce i)
             (flt (elem ce i) (elem me (skipn (length pre) i)))) /\
    (forall i, in_range ((pre ++ t) ++ [dim]) i ->
       elem mw' i =
       blend (elem mw (skipn (length pre) i)) (elem cw i)
             (flt (elem ce (removelast i))
                  (elem me (skipn (length pre) (removelast i))))).
Proof.
  intros Hce Hme Hcw Hmw.
  unfold pairwise_select, tmap2, tnot, tmap, unsqueeze_last. cbn [shape elem].
  rewrite Hce, Hme, Hcw, Hmw.
  rewrite broadcast_shapes_suffix_l. cbn [shape elem].
  rewrite broadcast_shapes_suffix_r. cbn [shape elem].
  rewrite broadcast_shapes_refl. cbn [shape elem].
  rewrite broadcast_shapes_mask. cbn [shape elem].
  pose proof (broadcast_shapes_mask [] (pre ++ t) dim) as E. cbn [app] in E.
  rewrite E. clear E. cbn [shape elem].
  repeat (rewrite broadcast_shapes_refl; cbn [shape elem]).
  eexists. eexists. split; [reflexivity|]. cbn [shape elem].
  split; [reflexivity|]. split; [reflexivity|]. split.
  - intros i Hi. unfold blend.
    rewrite !(bidx_id _ _ Hi), !(bidx_suffix _ _ _ Hi). reflexivity.
  - intros i Hi. unfold blend.
    pose proof (in_range_removelast _ _ _ Hi) as Hr.
    assert (Hi' : in_range (pre ++ (t ++ [dim])) i) by (rewrite app_assoc; exact Hi).
    rewrite !(bidx_id _ _ Hi), (bidx_mask _ _ _ Hi), removelast_last.
    rewrite (bidx_id _ _ Hr), (bidx_suffix _ _ _ Hr), (bidx_suffix _ _ _ Hi').
    reflexivity.
Qed.

(** With finite entries the arithmetic selects: the result is the new entry
    where the mask holds and the kept one elsewhere, up to the sign of a
    zero. *)
Lemma blend_selects (kept new : float) (b : bool) :
  fvalid kept = true -> fvalid new = true ->
  is_finite kept = true -> is_finite new = true ->
  keeps (if b then new else kept) (blend kept new b).
Proof.
  intros Vk Vn Fk Fn. unfold blend. destruct b; simpl negb.
  - apply blend_keeps_right; assumption.
  - apply blend_keeps_left; assumption.
Qed.

(** The merged error is not above the error passed in. *)
Lemma blend_le (kept new : float) :
  fvalid kept = true -> fvalid new = true ->
  is_finite kept = true -> is_finite new = true ->
  fle (blend kept new (flt new kept)) kept = true.
Proof.
  intros Vk Vn Fk Fn.
  pose proof (blend_selects kept new (flt new kept) Vk Vn Fk Fn) as K.
  assert (Nk : is_nan kept = false) by (destruct kept; simpl in *; congruence).
  destruct (flt new kept) eqn:L.
  - apply flt_iff in L. destruct L as (Nn & _ & L).
    apply fle_iff. rewrite (keeps_nan _ _ K), (keeps_key _ _ K). auto.
  - apply fle_iff. rewrite (keeps_nan _ _ K), (keeps_key _ _ K). auto.
Qed.

Lemma pairwise_select_error_le (pre t : list nat) (dim : nat)
    (ce me cw mw : tensor float) :
  shape ce = pre ++ t -> shape me = t ->
  shape cw = (pre ++ t) ++ [dim] -> shape mw = t ++ [dim] ->
  (forall i, in_range (pre ++ t) i ->
     fvalid (elem ce i) = true /\ is_finite (elem ce i) = true) ->
  (forall j, in_range t j ->
     fvalid (elem me j) = true /\ is_finite (elem me j) = true) ->
  exists mw' me',
    pairwise_select ce me cw mw = Some (mw', me') /\
    shape me' = pre ++ t /\ shape mw' = (pre ++ t) ++ [dim] /\
    (forall i, in_range (pre ++ t) i ->
       fle (elem me' i) (elem me (bidx (shape me) i)) = true /\
       fvalid (elem me' i) = true /\ is_finite (elem me' i) = true).
Proof.
  intros Hce Hme Hcw Hmw Vce Vme.
  destruct (pairwise_select_elem pre t dim ce me cw mw Hce Hme Hcw Hmw)
    as (mw' & me' & E & S1 & S2 & Ee & _).
  exists mw', me'. repeat split; auto.
  - rewrite Hme, (bidx_suffix _ _ _ H), (Ee i H).
    destruct (Vce i H), (Vme _ (in_range_skipn _ _ _ H)).
    apply blend_le; assumption.
  - rewrite (Ee i H).
    destruct (Vce i H), (Vme _ (in_range_skipn _ _ _ H)).
    eapply keeps_valid; [apply blend_selects; eassumption|].
    destruct (flt _ _); assumption.
  - rewrite (Ee i H).
    destruct (Vce i H) as [? Fc], (Vme _ (in_range_skipn _ _ _ H)) as [? Fm].
    erewrite keeps_finite by (apply blend_selects; eassumption).
    destruct (flt _ _); assumption.
Qed.


(** ** The optimisation loop *)

Lemma grad_update_model self lm labels features bar :
  fst (grad_update self lm labels features bar) = grad_step self labels features lm.
Proof. reflexivity. Qed.

Lemma grad_update_shape self lm labels features bar :
  shape (weights (fst (grad_update self lm labels features bar))) = shape (weights lm).
Proof. reflexivity. Qed.

Lemma grad_update_shown self lm labels features bar :
  length (bar_shown (snd (grad_update self lm labels features bar)))
  = S (length (bar_shown bar)).
Proof. reflexivity. Qed.

Lemma train_loop_spec n self labels features lm bar :
  fst (train_loop n self labels features (lm, bar))
  = Nat.iter n (grad_step self labels features) lm /\
  length (bar_shown (snd (train_loop n self labels features (lm, bar))))
  = length (bar_shown bar) + n.
Proof.
  revert lm bar. induction n as [|n IH]; intros lm bar.
  - simpl. split; [reflexivity | lia].
  - cbn [train_loop fst snd].
    destruct (grad_update self lm labels features bar) as [lm1 bar1] eqn:E.
    destruct (IH lm1 bar1) as [IH1 IH2]. rewrite IH1, IH2.
    rewrite Nat.iter_succ_r.
    pose proof (grad_update_model self lm labels features bar) as M.
    pose proof (grad_update_shown self lm labels features bar) as S.
    rewrite E in M, S. simpl in M, S. rewrite M, S. split; [reflexivity | lia].
Qed.

Lemma error_tracker_shapes (nobs npred dim : nat) (dev : string) :
  npred <> 1 -> dim <> 1 ->
  tracker_shapes nobs npred dim (fst (error_tracker [nobs; npred; dim] dev))
                       (snd (error_tracker [nobs; npred; dim] dev)).
Proof.
  intros HP HD. unfold tracker_shapes, error_tracker, squeeze, full.
  cbn [fst snd shape removelast filter].
  apply Nat.eqb_neq in HP, HD. rewrite HP, HD. cbn [negb].
  destruct (nobs =? 1) eqn:HO; cbn [negb].
  - apply Nat.eqb_eq in HO. subst. exists [1], [npred]. auto.
  - exists [], [nobs; npred]. auto.
Qed.

Lemma val_step_shapes nobs npred dim self lt ft lv fv st :
  rate_shape nobs npred dim -> shape_inv nobs npred dim st ->
  exists st', val_step self lt ft lv fv st = Some st' /\ shape_inv nobs npred dim st' /\
    st_model st' = grad_step self lt ft (st_model st) /\
    length (bar_shown (st_bar st')) = S (length (bar_shown (st_bar st))).
Proof.
  intro Hrate.
  destruct st as [[[lm bar] mw] me].
  unfold shape_inv, st_model, st_bar, st_weights, st_errors.
  cbn [fst snd]. intros [Hlm (pre & t & Hs & Hme & Hmw)].
  unfold val_step.
  destruct (grad_update self lm lt ft bar) as [lm1 bar1] eqn:E.
  pose proof (grad_update_model self lm lt ft bar) as M.
  pose proof (grad_update_shape self lm lt ft bar) as S1.
  pose proof (grad_update_shown self lm lt ft bar) as S2.
  rewrite E in M, S1, S2. cbn [fst snd] in M, S1, S2.
  assert (Hlm1 : shape (weights lm1) = [nobs; npred; dim]) by congruence.
  destruct (pairwise_select_elem pre t dim
              (conditional_one_rate lm1 fv (transpose lv)) me (weights lm1) mw)
    as (mw' & me' & Eq & Sm & Sw & _).
  - rewrite Hs. apply Hrate, Hlm1.
  - exact Hme.
  - rewrite Hs. exact Hlm1.
  - exact Hmw.
  - rewrite Eq. eexists. split; [reflexivity|]. cbn [fst snd].
    repeat split; auto.
    exists [], [nobs; npred]. rewrite Hs in Sm, Sw. auto.
Qed.

Lemma val_loop_shapes nobs npred dim n self lt ft lv fv st :
  rate_shape nobs npred dim -> shape_inv nobs npred dim st ->
  exists st', val_loop n self lt ft lv fv st = Some st' /\ shape_inv nobs npred dim st' /\
    st_model st' = Nat.iter n (grad_step self lt ft) (st_model st) /\
    length (bar_shown (st_bar st')) = length (bar_shown (st_bar st)) + n.
Proof.
  intro Hrate. revert st. induction n as [|n IH]; intros st Hst.
  - exists st. simpl. repeat split; auto; apply Hst.
  - destruct (val_step_shapes nobs npred dim self lt ft lv fv st Hrate Hst)
      as (st1 & E1 & H1 & M1 & L1).
    destruct (IH st1 H1) as (st' & E' & H' & M' & L').
    exists st'. cbn [val_loop]. rewrite E1. split; [exact E'|].
    split; [exact H'|]. rewrite Nat.iter_succ_r, M', M1, L', L1.
    split; [reflexivity | lia].
Qed.

(** Whatever the shapes, an iteration that does not raise has refreshed the
    progress bar once. *)
Lemma val_step_shown self lt ft lv fv st st' :
  val_step self lt ft lv fv st = Some st' ->
  length (bar_shown (st_bar st')) = S (length (bar_shown (st_bar st))).
Proof.
  destruct st as [[[lm bar] mw] me]. unfold val_step.
  pose proof (grad_update_shown self lm lt ft bar) as S.
  destruct (grad_update self lm lt ft bar) as [lm1 bar1]. cbn [snd] in S.
  destruct (pairwise_select _ _ _ _) as [[mw' me']|]; [|discriminate].
  intro E. inversion E; subst. exact S.
Qed.

Lemma val_loop_shown n self lt ft lv fv st st' :
  val_loop n self lt ft lv fv st = Some st' ->
  length (bar_shown (st_bar st')) = length (bar_shown (st_bar st)) + n.
Proof.
  revert st. induction n as [|n IH]; intros st E.
  - inversion E; subst. lia.
  - cbn [val_loop] in E.
    destruct (val_step self lt ft lv fv st) as [st1|] eqn:E1; [|discriminate].
    rewrite (IH st1 E), (val_step_shown _ _ _ _ _ _ _ E1). lia.
Qed.

(** ** The tracked errors *)

Lemma fone_valid : fvalid fone = true.
Proof.
  rewrite fone_eq. unfold fvalid, valid_binary, bounded, canonical_mantissa.
  rewrite digits2_pos_shift. simpl digits2_pos.
  rewrite Z2Nat.id by lia.
  apply andb_true_iff. split.
  - apply Z.eqb_eq. unfold fexp, emin. lia.
  - apply Z.leb_le. lia.
Qed.

Lemma fone_finite : is_finite fone = true.
Proof. rewrite fone_eq. reflexivity. Qed.

(** A float between [0.0] and [1.0] is finite. *)
Lemma unit_finite (e : float) :
  fle fzero e = true -> fle e fone = true -> is_finite e = true.
Proof.
  rewrite fone_eq. destruct e as [s | [] | | s m x]; simpl; intros H0 H1;
    try reflexivity; discriminate.
Qed.

Lemma val_loop_snoc n self lt ft lv fv st :
  val_loop (S n) self lt ft lv fv st
  = match val_loop n self lt ft lv fv st with
    | Some st' => val_step self lt ft lv fv st'
    | None => None
    end.
Proof.
  revert st. induction n as [|n IH]; intro st.
  - cbn [val_loop]. destruct (val_step self lt ft lv fv st); reflexivity.
  - change (val_loop (S (S n)) self lt ft lv fv st)
      with (match val_step self lt ft lv fv st with
            | Some st1 => val_loop (S n) self lt ft lv fv st1
            | None => None
            end).
    cbn [val_loop] in IH |- *.
    destruct (val_step self lt ft lv fv st) as [st1|]; [|reflexivity].
    apply IH.
Qed.

Lemma val_step_errors nobs npred dim self lt ft lv fv st :
  rate_shape nobs npred dim -> rate_unit nobs npred dim ->
  shape_inv nobs npred dim st -> errors_finite st ->
  exists st', val_step self lt ft lv fv st = Some st' /\
    shape_inv nobs npred dim st' /\ errors_finite st' /\
    shape (st_errors st') = [nobs; npred] /\
    (forall i, in_range [nobs; npred] i ->
       fle (elem (st_errors st') i)
           (elem (st_errors st) (bidx (shape (st_errors st)) i)) = true).
Proof.
  intros Hrate Hunit Hst Hfin.
  destruct (val_step_shapes nobs npred dim self lt ft lv fv st Hrate Hst)
    as (st' & E & Hst' & _ & _).
  exists st'. split; [exact E|]. split; [exact Hst'|].
  destruct st as [[[lm bar] mw] me].
  unfold shape_inv, errors_finite, st_model, st_bar, st_weights, st_errors in *.
  cbn [fst snd] in *. destruct Hst as [Hlm (pre & t & Hs & Hme & Hmw)].
  unfold val_step in E.
  destruct (grad_update self lm lt ft bar) as [lm1 bar1] eqn:G.
  pose proof (grad_update_shape self lm lt ft bar) as S1.
  rewrite G in S1. cbn [fst] in S1.
  assert (Hlm1 : shape (weights lm1) = [nobs; npred; dim]) by congruence.
  destruct (pairwise_select_error_le pre t dim
              (conditional_one_rate lm1 fv (transpose lv)) me (weights lm1) mw)
    as (mw' & me' & Eq & Sm & Sw & Hle).
  - rewrite Hs. apply Hrate, Hlm1.
  - exact Hme.
  - rewrite Hs. exact Hlm1.
  - exact Hmw.
  - rewrite Hs. intros i Hi.
    destruct (Hunit lm1 fv (transpose lv) i Hlm1 Hi) as (V & L0 & L1).
    split; [exact V | apply unit_finite; assumption].
  - rewrite <- Hme. exact Hfin.
  - rewrite Eq in E. inversion E; subst st'. cbn [fst snd].
    rewrite Hs in Sm, Hle. rewrite Sm.
    split; [|split; [reflexivity|]].
    + intros j Hj. split; apply (Hle j Hj).
    + intros i Hi. apply (Hle i Hi).
Qed.

Lemma val_loop_errors nobs npred dim n self lt ft lv fv st :
  rate_shape nobs npred dim -> rate_unit nobs npred dim ->
  shape_inv nobs npred dim st -> errors_finite st ->
  exists st', val_loop n self lt ft lv fv st = Some st' /\
    shape_inv nobs npred dim st' /\ errors_finite st'.
Proof.
  intros Hrate Hunit. revert st. induction n as [|n IH]; intros st Hst Hfin.
  - exists st. auto.
  - destruct (val_step_errors nobs npred dim self lt ft lv fv st Hrate Hunit Hst Hfin)
      as (st1 & E1 & H1 & F1 & _).
    destruct (IH st1 H1 F1) as (st' & E' & H' & F').
    exists st'. cbn [val_loop]. rewrite E1. auto.
Qed.

Lemma error_tracker_finite (ws : list nat) (dev : string) (j : index) :
  fvalid (elem (snd (error_tracker ws dev)) j) = true /\
  is_finite (elem (snd (error_tracker ws dev)) j) = true.
Proof. split; [apply fone_valid | apply fone_finite]. Qed.

(** ** The merge against the spec's [where] *)

(** For tensors of the shapes of the docstring whose entries are finite
    floats of the format, [pairwise_select] returns what the merge by
    [where] returns, up to the sign of a zero. *)
Lemma pairwise_select_where_finite (s : list nat) (dim : nat)
    (ce me cw mw : tensor float) :
  shape ce = s -> shape me = s -> shape cw = s ++ [dim] -> shape mw = s ++ [dim] ->
  (forall i, in_range s i ->
     fvalid (elem ce i) = true /\ is_finite (elem ce i) = true /\
     fvalid (elem me i) = true /\ is_finite (elem me i) = true) ->
  (forall i, in_range (s ++ [dim]) i ->
     fvalid (elem cw i) = true /\ is_finite (elem cw i) = true /\
     fvalid (elem mw i) = true /\ is_finite (elem mw i) = true) ->
  exists mw' me' w e,
    pairwise_select ce me cw mw = Some (mw', me') /\
    pairwise_select_where ce me cw mw = Some (w, e) /\
    shape me' = shape e /\ shape mw' = shape w /\
    (forall i, in_range s i -> keeps (elem e i) (elem me' i)) /\
    (forall i, in_range (s ++ [dim]) i -> keeps (elem w i) (elem mw' i)).
Proof.
  intros Hce Hme Hcw Hmw He Hw.
  destruct (pairwise_select_elem [] s dim ce me cw mw Hce Hme Hcw Hmw)
    as (mw' & me' & E1 & S1 & S2 & Ee & Ew).
  destruct (pairwise_select_where_elem s dim ce me cw mw Hce Hme Hcw Hmw)
    as (w & e & E2 & S3 & S4 & We & Ww).
  cbn [app length skipn] in *.
  exists mw', me', w, e. repeat split; try congruence.
  - intros i Hi. rewrite (Ee i Hi), (We i Hi).
    destruct (He i Hi) as (? & ? & ? & ?). apply blend_selects; assumption.
  - intros i Hi. rewrite (Ew i Hi), (Ww i Hi).
    destruct (Hw i Hi) as (? & ? & ? & ?). apply blend_selects; assumption.
Qed.

(** In any format, an entry that the mask does not select and that is not
    finite turns the kept entry into NaN: a current weight that is infinite
    or NaN where the error has not improved, and a current error that is
    NaN. *)
Lemma pairwise_select_poisoned (s : list nat) (dim : nat)
    (ce me cw mw : tensor float) :
  shape ce = s -> shape me = s -> shape cw = s ++ [dim] -> shape mw = s ++ [dim] ->
  exists mw' me',
    pairwise_select ce me cw mw = Some (mw', me') /\
    (forall i, in_range (s ++ [dim]) i ->
       flt (elem ce (removelast i)) (elem me (removelast i)) = false ->
       is_finite (elem cw i) = false -> elem mw' i = S754_nan) /\
    (forall i, in_range s i ->
       is_nan (elem ce i) = true -> elem me' i = S754_nan).
Proof.
  intros Hce Hme Hcw Hmw.
  destruct (pairwise_select_elem [] s dim ce me cw mw Hce Hme Hcw Hmw)
    as (mw' & me' & E & _ & _ & Ee & Ew).
  cbn [app length skipn] in *.
  exists mw', me'. split; [exact E|]. split.
  - intros i Hi Hm Hf. rewrite (Ew i Hi), Hm. unfold blend. cbn [negb].
    apply blend_poisoned_left, Hf.
  - intros i Hi Hn. rewrite (Ee i Hi).
    assert (Hm : flt (elem ce i) (elem me i) = false).
    { destruct (elem ce i); try discriminate. reflexivity. }
    rewrite Hm. unfold blend. cbn [negb]. apply blend_poisoned_left.
    destruct (elem ce i); try discriminate. reflexivity.
Qed.

(** ** A run in which no error is below the initial one *)

Lemma keeps_fzero (r : float) : keeps fzero r -> r = fzero.
Proof. intros [-> | [C _]]; [reflexivity | discriminate]. Qed.

Lemma keeps_fone (r : float) : keeps fone r -> r = fone.
Proof.
  intros [-> | [C _]]; [reflexivity|]. rewrite fone_eq in C. discriminate.
Qed.

Lemma val_step_initial nobs npred dim self lt ft lv fv st :
  rate_shape nobs npred dim -> rate_at_least_one nobs npred dim ->
  shape_inv nobs npred dim st -> tracker_initial st ->
  (forall i, in_range [nobs; npred; dim] i ->
     is_finite (elem (weights (grad_step self lt ft (st_model st))) i) = true) ->
  exists st', val_step self lt ft lv fv st = Some st' /\
    shape_inv nobs npred dim st' /\ tracker_initial st' /\
    st_model st' = grad_step self lt ft (st_model st) /\
    shape (st_weights st') = [nobs; npred; dim].
Proof.
  intros Hrate Hone Hst Hini Hfin.
  destruct (val_step_shapes nobs npred dim self lt ft lv fv st Hrate Hst)
    as (st' & E & Hst' & M & _).
  exists st'. split; [exact E|]. split; [exact Hst'|].
  destruct st as [[[lm bar] mw] me].
  unfold shape_inv, tracker_initial, st_model, st_bar, st_weights, st_errors in *.
  cbn [fst snd] in *. destruct Hst as [Hlm (pre & t & Hs & Hme & Hmw)].
  destruct Hini as [Iw Ie].
  unfold val_step in E.
  pose proof (grad_update_model self lm lt ft bar) as G1.
  destruct (grad_update self lm lt ft bar) as [lm1 bar1] eqn:G.
  cbn [fst] in G1. rewrite <- G1 in Hfin.
  assert (Hlm1 : shape (weights lm1) = [nobs; npred; dim]).
  { pose proof (grad_update_shape self lm lt ft bar) as S1.
    rewrite G in S1. cbn [fst] in S1. congruence. }
  set (ce := conditional_one_rate lm1 fv (transpose lv)) in *.
  assert (Hce : shape ce = pre ++ t) by (rewrite Hs; apply Hrate, Hlm1).
  assert (Hcw : shape (weights lm1) = (pre ++ t) ++ [dim]) by (rewrite Hs; exact Hlm1).
  destruct (pairwise_select_elem pre t dim ce me (weights lm1) mw Hce Hme Hcw Hmw)
    as (mw' & me' & Eq & Sm & Sw & Ee & Ew).
  rewrite Eq in E. inversion E; subst st'. cbn [fst snd] in *.
  rewrite Hs in Sm, Sw, Ee, Ew.
  assert (Hmask : forall i, in_range [nobs; npred] i ->
            flt (elem ce i) (elem me (skipn (length pre) i)) = false).
  { intros i Hi. rewrite Ie.
    - apply fle_flt_false. apply (Hone lm1 fv (transpose lv) i Hlm1 Hi).
    - rewrite Hme. apply in_range_skipn. rewrite Hs. exact Hi. }
  split; [|split; [exact G1 | exact Sw]].
  split.
  - intros j Hj. rewrite Sw in Hj. rewrite (Ew j Hj).
    rewrite (Hmask _ (in_range_removelast [nobs; npred] dim j Hj)).
    rewrite Iw.
    + apply keeps_fzero. apply blend_keeps_left; [reflexivity | apply Hfin, Hj].
    + rewrite Hmw. apply (in_range_skipn pre (t ++ [dim])).
      rewrite app_assoc, Hs. exact Hj.
  - intros j Hj. rewrite Sm in Hj. rewrite (Ee j Hj), (Hmask j Hj).
    rewrite Ie.
    + apply keeps_fone. apply blend_keeps_left; [apply fone_valid|].
      apply (Hone lm1 fv (transpose lv) j Hlm1 Hj).
    + rewrite Hme. apply in_range_skipn. rewrite Hs. exact Hj.
Qed.

Lemma val_loop_initial nobs npred dim n self lt ft lv fv st :
  rate_shape nobs npred dim -> rate_at_least_one nobs npred dim ->
  shape_inv nobs npred dim st -> tracker_initial st ->
  (forall k i, 1 <= k <= n -> in_range [nobs; npred; dim] i ->
     is_finite (elem (weights (Nat.iter k (grad_step self lt ft) (st_model st))) i)
     = true) ->
  exists st', val_loop n self lt ft lv fv st = Some st' /\
    shape_inv nobs npred dim st' /\ tracker_initial st'.
Proof.
  intros Hrate Hone. revert st.
  induction n as [|n IH]; intros st Hst Hini Hfin.
  - exists st. auto.
  - destruct (val_step_initial nobs npred dim self lt ft lv fv st Hrate Hone Hst Hini)
      as (st1 & E1 & H1 & I1 & M1 & _).
    { intros i Hi. apply (Hfin 1 i); [lia | exact Hi]. }
    destruct (IH st1 H1 I1) as (st' & E' & H' & I').
    { intros k i Hk Hi. rewrite M1, <- Nat.iter_succ_r.
      apply Hfin; [lia | exact Hi]. }
    exists st'. cbn [val_loop]. rewrite E1. auto.
Qed.

(** With a validation set on which no error rate is ever below [1.0], and
    live weights that stay finite, the model that [PGDOptim] returns holds
    the zeros of the tracker. *)
Lemma PGDOptim_zero_when_finite (self : ReferenceClass) (lin_model : LinearModel)
    (dataset_train dataset_val : Dataset) (bar : progress) (nobs npred dim : nat) :
  shape (weights lin_model) = [nobs; npred; dim] -> npred <> 1 -> dim <> 1 ->
  rate_shape nobs npred dim -> rate_at_least_one nobs npred dim ->
  (forall k i, 1 <= k <= Z.to_nat (num_iter self) -> in_range [nobs; npred; dim] i ->
     is_finite
       (elem (weights (Nat.iter k (grad_step self (labels dataset_train)
                                               (features dataset_train))
                                lin_model)) i) = true) ->
  exists model bar',
    PGDOptim self lin_model dataset_train (Some dataset_val) bar
    = Some (model, bar') /\
    forall i, in_range (shape (weights model)) i -> elem (weights model) i = fzero.
Proof.
  intros Hlm HP HD Hrate Hone Hfin. unfold PGDOptim, getall, size.
  rewrite Hlm.
  pose proof (error_tracker_shapes nobs npred dim (device self) HP HD) as T.
  assert (I : tracker_initial
                (lin_model, bar, fst (error_tracker [nobs; npred; dim] (device self)),
                 snd (error_tracker [nobs; npred; dim] (device self)))).
  { split; intros j _; reflexivity. }
  destruct (error_tracker [nobs; npred; dim] (device self)) as [mw me].
  cbn [fst snd] in T, I.
  destruct (val_loop_initial nobs npred dim (Z.to_nat (num_iter self)) self
              (labels dataset_train) (features dataset_train)
              (labels dataset_val) (features dataset_val)
              (lin_model, bar, mw, me) Hrate Hone)
    as (st' & E & _ & [Iw _]).
  { split; assumption. }
  { exact I. }
  { exact Hfin. }
  rewrite E. destruct st' as [[[lm' bar'] mw'] me'].
  exists (mkLinearModel mw'), (close bar'). split; [reflexivity | exact Iw].
Qed.

(** ** The minimum reduction *)

Lemma flt_nan_r (x y : float) : is_nan y = true -> flt x y = false.
Proof. destruct y; try discriminate. destruct x; reflexivity. Qed.

Lemma feq_nan_r (x y : float) : is_nan y = true -> feq x y = false.
Proof. destruct y; try discriminate. destruct x; reflexivity. Qed.

Lemma fle_not_nan (x y : float) :
  fle x y = true -> is_nan x = false /\ is_nan y = false.
Proof. intro H. apply fle_iff in H. tauto. Qed.

Lemma min_scan_post (l pre : list float) (best : float) (bi : nat) :
  scan_inv pre best bi ->
  scan_post (pre ++ l) (min_scan best bi (length pre) l).
Proof.
  revert pre best bi. induction l as [|x l IH]; intros pre best bi Inv.
  - destruct Inv as (N & B & E & Hle & Hlt).
    rewrite app_nil_r. unfold scan_post. cbn [min_scan fst snd].
    rewrite N. auto.
  - destruct Inv as (N & B & E & Hle & Hlt). cbn [min_scan].
    assert (A : (pre ++ [x]) ++ l = pre ++ x :: l)
      by (rewrite <- app_assoc; reflexivity).
    assert (Lp : length (pre ++ [x]) = S (length pre))
      by (rewrite length_app; simpl; lia).
    destruct (fle best x) eqn:C; cbn [negb].
    + rewrite <- A, <- Lp. apply IH.
      repeat split; auto.
      * rewrite Lp. lia.
      * rewrite app_nth1 by lia. exact E.
      * intros p Hp. rewrite Lp in Hp.
        destruct (Nat.eq_dec p (length pre)) as [->|Hne].
        -- rewrite nth_middle. exact C.
        -- rewrite app_nth1 by lia. apply Hle. lia.
      * intros p Hp. rewrite app_nth1 by lia. apply Hlt, Hp.
    + destruct (is_nan x) eqn:Nx.
      * unfold scan_post. cbn [fst snd]. rewrite Nx.
        split; [rewrite length_app; simpl; lia|].
        split; [apply nth_middle|].
        intros p Hp. rewrite app_nth1 by exact Hp.
        apply (fle_not_nan best), Hle, Hp.
      * assert (Lx : flt x best = true) by (apply fle_false_flt; assumption).
        rewrite <- A, <- Lp. apply IH.
        repeat split; auto.
        -- rewrite Lp. lia.
        -- apply nth_middle.
        -- intros p Hp. rewrite Lp in Hp.
           destruct (Nat.eq_dec p (length pre)) as [->|Hne].
           ++ rewrite nth_middle. apply fle_refl, Nx.
           ++ rewrite app_nth1 by lia. apply flt_fle.
              apply (flt_fle_trans x best); [exact Lx | apply Hle; lia].
        -- intros p Hp. rewrite app_nth1 by exact Hp.
           apply (flt_fle_trans x best); [exact Lx | apply Hle, Hp].
Qed.

Lemma lane_min_post (l : list float) : l <> [] -> scan_post l (lane_min l).
Proof.
  destruct l as [|x l]; [congruence|]. intros _.
  unfold lane_min. cbn [hd min_scan].
  destruct (is_nan x) eqn:Nx.
  - assert (C : fle x x = false).
    { destruct (fle x x) eqn:C; [|reflexivity].
      apply fle_not_nan in C. destruct C. congruence. }
    rewrite C. cbn [negb]. unfold scan_post. cbn [fst snd]. rewrite Nx.
    repeat split; simpl; try lia.
  - rewrite (fle_refl x Nx). cbn [negb].
    apply (min_scan_post l [x] x 0).
    repeat split; simpl; auto; try lia.
    intros p Hp. assert (p = 0) by lia. subst. apply fle_refl, Nx.
Qed.

(** The minimum of a lane and its index, as torch returns them. *)
Lemma lane_min_spec (l : list float) :
  l <> [] ->
  snd (lane_min l) < length l /\
  nth (snd (lane_min l)) l S754_nan = fst (lane_min l) /\
  (forall p, p < length l -> flt (nth p l S754_nan) (fst (lane_min l)) = false) /\
  (forall p, p < snd (lane_min l) -> feq (nth p l S754_nan) (fst (lane_min l)) = false) /\
  ((forall p, p < length l -> is_nan (nth p l S754_nan) = false) ->
   (forall p, p < length l -> fle (fst (lane_min l)) (nth p l S754_nan) = true) /\
   (forall p, p < snd (lane_min l) -> flt (fst (lane_min l)) (nth p l S754_nan) = true)).
Proof.
  intro Hl. pose proof (lane_min_post l Hl) as (K & E & R).
  split; [exact K|]. split; [exact E|].
  destruct (is_nan (fst (lane_min l))) eqn:N.
  - split; [intros; apply flt_nan_r, N|].
    split; [intros; apply feq_nan_r, N|].
    intro Hn. specialize (Hn _ K). rewrite E in Hn. congruence.
  - destruct R as [Rle Rlt].
    split; [intros p Hp; apply fle_flt_false, Rle, Hp|].
    split; [intros p Hp; apply flt_feq_false, Rlt, Hp|].
    auto.
Qed.

Lemma lane1_length {A} (t : tensor A) (n i0 : nat) (rest : index) :
  length (lane1 t n i0 rest) = n.
Proof. unfold lane1. rewrite length_map, length_seq. reflexivity. Qed.

Lemma lane1_nth (t : tensor float) (n i0 : nat) (rest : index) (p : nat) :
  p < n -> nth p (lane1 t n i0 rest) S754_nan = elem t (i0 :: p :: rest).
Proof.
  intro Hp. unfold lane1.
  rewrite (nth_indep _ S754_nan (elem t (i0 :: 0 :: rest)))
    by (rewrite length_map, length_seq; exact Hp).
  rewrite (map_nth (fun j => elem t (i0 :: j :: rest))), seq_nth by exact Hp.
  reflexivity.
Qed.

(** ** The size of a rounded result *)

Section Rounding.

Local Open Scope Z_scope.

(** Any format, for the tensors' and for Python's floats. *)
Variables fprec femax : Z.
Hypothesis Hfprec : 1 < fprec.
Hypothesis Hfemax : fprec < femax.

Lemma digits2_pos_log2 (p : positive) :
  Zpos (digits2_pos p) = Z.log2 (Zpos p) + 1.
Proof.
  induction p as [p IH | p IH |]; simpl digits2_pos.
  - rewrite Pos2Z.inj_succ, IH.
    change (Zpos p~1) with (2 * Zpos p + 1).
    rewrite Z.log2_succ_double by lia. lia.
  - rewrite Pos2Z.inj_succ, IH.
    change (Zpos p~0) with (2 * Zpos p).
    rewrite Z.log2_double by lia. lia.
  - reflexivity.
Qed.

Lemma Zdigits2_pos (m : Z) : 0 < m -> Zdigits2 m = Z.log2 m + 1.
Proof.
  destruct m as [|p|p]; try lia. intros _. apply digits2_pos_log2.
Qed.

Lemma Zdigits2_nonneg (m : Z) : 0 <= m -> 0 <= Zdigits2 m.
Proof. destruct m; simpl; lia. Qed.

Lemma Zdigits2_succ (m : Z) : 0 <= m -> Zdigits2 (m + 1) <= Zdigits2 m + 1.
Proof.
  intro Hm. destruct (Z.eq_dec m 0) as [->|Nm]; [simpl; lia|].
  rewrite !Zdigits2_pos by lia.
  pose proof (Z.log2_succ_le m). unfold Z.succ in *. lia.
Qed.

Lemma Zdigits2_mul (a b : positive) :
  Zpos (digits2_pos (a * b)) <= Zpos (digits2_pos a) + Zpos (digits2_pos b).
Proof.
  rewrite !digits2_pos_log2, Pos2Z.inj_mul.
  pose proof (Z.log2_mul_above (Zpos a) (Zpos b)). lia.
Qed.

Lemma Zdigits2_lt_pow2 (m k : Z) : 0 <= m < 2 ^ k -> 0 <= k -> Zdigits2 m <= k.
Proof.
  intros [Hm Hlt] Hk. destruct (Z.eq_dec m 0) as [->|Nm]; [simpl; lia|].
  rewrite Zdigits2_pos by lia.
  assert (Z.log2 m < k) by (apply Z.log2_lt_pow2; lia). lia.
Qed.

Lemma shr_1_digits (r : shr_record) :
  0 <= shr_m r ->
  0 <= shr_m (shr_1 r) /\
  Zdigits2 (shr_m (shr_1 r)) = Z.max 0 (Zdigits2 (shr_m r) - 1).
Proof.
  destruct r as [m b s]. cbn [shr_m]. intro Hm.
  destruct m as [|[p|p|]|p]; cbn [shr_1 shr_m Zdigits2 digits2_pos]; try lia.
Qed.

Lemma shr_iter_digits (n : nat) (r : shr_record) :
  0 <= shr_m r ->
  0 <= shr_m (Nat.iter n shr_1 r) /\
  Zdigits2 (shr_m (Nat.iter n shr_1 r)) = Z.max 0 (Zdigits2 (shr_m r) - Z.of_nat n).
Proof.
  intro Hm. induction n as [|n [IH1 IH2]].
  - simpl. pose proof (Zdigits2_nonneg _ Hm). lia.
  - change (Nat.iter (S n) shr_1 r) with (shr_1 (Nat.iter n shr_1 r)).
    destruct (shr_1_digits _ IH1) as [S1 S2].
    split; [exact S1|]. rewrite S2, IH2. lia.
Qed.

Lemma shr_record_of_loc_m (m : Z) (l : location) :
  shr_m (shr_record_of_loc m l) = m.
Proof. destruct l as [|[]]; reflexivity. Qed.

(** After the shift of [shr_fexp] the mantissa is not negative, the
    exponent is the larger of the old one and the canonical one, and the
    magnitude has not grown beyond the canonical exponent. *)
Lemma shr_fexp_bound (m e : Z) (l : location) :
  0 <= m ->
  0 <= shr_m (fst (shr_fexp fprec femax m e l)) /\
  snd (shr_fexp fprec femax m e l) = Z.max e (fexp fprec femax (Zdigits2 m + e)) /\
  Zdigits2 (shr_m (fst (shr_fexp fprec femax m e l))) + snd (shr_fexp fprec femax m e l)
  <= Z.max (Zdigits2 m + e) (fexp fprec femax (Zdigits2 m + e)).
Proof.
  intro Hm. unfold shr_fexp, shr.
  set (f := fexp fprec femax (Zdigits2 m + e)).
  pose proof (Zdigits2_nonneg m Hm) as Hd.
  destruct (f - e) as [|p|p] eqn:E; cbn [fst snd].
  - rewrite shr_record_of_loc_m. lia.
  - rewrite iter_pos_nat.
    destruct (shr_iter_digits (Pos.to_nat p) (shr_record_of_loc m l)) as [S1 S2].
    { rewrite shr_record_of_loc_m. exact Hm. }
    rewrite shr_record_of_loc_m in S2.
    split; [exact S1|]. rewrite S2. lia.
  - rewrite shr_record_of_loc_m. lia.
Qed.

Lemma round_nearest_even_bound (m : Z) (l : location) :
  0 <= m ->
  0 <= round_nearest_even m l /\
  Zdigits2 (round_nearest_even m l) <= Zdigits2 m + 1.
Proof.
  intro Hm. pose proof (Zdigits2_succ m Hm) as Hs.
  pose proof (Zdigits2_nonneg m Hm) as Hd.
  destruct l as [|[]]; cbn [round_nearest_even]; try (split; lia).
  destruct (Z.even m); split; lia.
Qed.

(** A rounded result whose magnitude stays below [2 ^ femax] is a zero or a
    finite number. *)
Lemma binary_round_aux_finite (s : bool) (m e : Z) (l : location) (B : Z) :
  0 <= m -> Zdigits2 m + e <= B -> e <= femax - fprec -> B < femax ->
  match binary_round_aux fprec femax s m e l with
  | S754_zero _ => True
  | S754_finite s' m' e' =>
      s' = s /\
      Zpos (digits2_pos m') + e' <= Z.max B (emin fprec femax) + 1 /\
      e' <= femax - fprec
  | _ => False
  end.
Proof.
  intros Hm HB He HBe. unfold binary_round_aux.
  destruct (shr_fexp_bound m e l Hm) as (M1 & E1 & D1).
  destruct (shr_fexp fprec femax m e l) as [mrs1 e1]. cbn [fst snd] in M1, E1, D1.
  destruct (round_nearest_even_bound (shr_m mrs1) (loc_of_shr_record mrs1) M1)
    as [R1 R2].
  set (mr := round_nearest_even (shr_m mrs1) (loc_of_shr_record mrs1)) in *.
  destruct (shr_fexp_bound mr e1 loc_Exact R1) as (M2 & E2 & D2).
  destruct (shr_fexp fprec femax mr e1 loc_Exact) as [mrs2 e2].
  cbn [fst snd] in M2, E2, D2.
  unfold fexp, emin in *.
  destruct (shr_m mrs2) as [|m'|m'] eqn:Em; [exact I| |lia].
  cbn [Zdigits2] in D2.
  destruct (Z.leb_spec e2 (femax - fprec)); [repeat split; lia | lia].
Qed.

Lemma shl_align_spec (m : positive) (e e' : Z) :
  Zpos (digits2_pos (fst (shl_align m e e'))) + snd (shl_align m e e')
  = Zpos (digits2_pos m) + e /\
  snd (shl_align m e e') <= e.
Proof.
  unfold shl_align. destruct (e' - e) as [|d|d] eqn:E; cbn [fst snd]; try lia.
  rewrite pos_iter_nat, digits2_pos_shift. lia.
Qed.

End Rounding.

(** ** The value of a rounded result *)

Section RoundingValue.

Local Open Scope Z_scope.

Variables fprec femax : Z.
Hypothesis Hfprec : 1 < fprec.
Hypothesis Hfemax : fprec < femax.

(** One shift to the right halves the mantissa and remembers the bit that
    is lost. *)
Lemma shr_1_value (r : shr_record) :
  0 <= shr_m r ->
  0 <= shr_m (shr_1 r) /\
  shr_m r = 2 * shr_m (shr_1 r) + (if shr_r (shr_1 r) then 1 else 0) /\
  shr_s (shr_1 r) = orb (shr_r r) (shr_s r).
Proof.
  destruct r as [m rr ss]. cbn [shr_m shr_r shr_s]. intro Hm.
  destruct m as [|[p|p|]|p]; cbn [shr_1 shr_m shr_r shr_s]; try lia;
    repeat split; lia.
Qed.

(** After [n] shifts the mantissa is the quotient by [2 ^ n], and the
    record is inexact only if the remainder is not zero. *)
Lemma shr_iter_value (n : nat) (r : shr_record) :
  0 <= shr_m r ->
  0 <= shr_m (Nat.iter n shr_1 r) /\
  exists rem,
    0 <= rem < 2 ^ Z.of_nat n /\
    shr_m r = shr_m (Nat.iter n shr_1 r) * 2 ^ Z.of_nat n + rem /\
    (orb (shr_r (Nat.iter n shr_1 r)) (shr_s (Nat.iter n shr_1 r)) = true ->
     0 < rem \/ orb (shr_r r) (shr_s r) = true).
Proof.
  intro Hm. induction n as [|n IH].
  - cbn [Nat.iter]. split; [exact Hm|]. exists 0. cbn. split; [lia|].
    split; [lia|]. intro H. right. exact H.
  - rewrite !Nat.iter_succ. destruct IH as (H0 & rem & Hrem & Hval & Hin).
    destruct (shr_1_value (Nat.iter n shr_1 r) H0) as (H1 & Hv & Hs).
    split; [exact H1|].
    set (r1 := Nat.iter n shr_1 r) in *. set (r2 := shr_1 r1) in *.
    rewrite Nat2Z.inj_succ, Z.pow_succ_r by lia.
    set (P := 2 ^ Z.of_nat n) in *.
    assert (HP : 0 < P) by (apply Z.pow_pos_nonneg; lia).
    exists ((if shr_r r2 then 1 else 0) * P + rem).
    split; [destruct (shr_r r2); lia|].
    split; [rewrite Hval, Hv; ring|].
    intro H. rewrite Hs in H.
    destruct (shr_r r2).
    + left. lia.
    + cbn [orb] in H. destruct (Hin H) as [Hr|Hr]; [left; lia | right; exact Hr].
Qed.

Lemma shr_value (r : shr_record) (e k : Z) :
  0 <= shr_m r ->
  exists j rem,
    0 <= j /\ snd (shr r e k) = e + j /\ e + j = Z.max e (e + k) /\
    0 <= shr_m (fst (shr r e k)) /\
    0 <= rem < 2 ^ j /\
    shr_m r = shr_m (fst (shr r e k)) * 2 ^ j + rem /\
    (orb (shr_r (fst (shr r e k))) (shr_s (fst (shr r e k))) = true ->
     0 < rem \/ orb (shr_r r) (shr_s r) = true).
Proof.
  intro Hm. unfold shr. destruct k as [|p|p]; cbn [fst snd].
  - exists 0, 0. cbn. repeat split; try lia. intro H. right. exact H.
  - rewrite iter_pos_nat.
    destruct (shr_iter_value (Pos.to_nat p) r Hm) as (H0 & rem & Hrem & Hval & Hin).
    rewrite positive_nat_Z in Hrem, Hval.
    exists (Zpos p), rem. repeat split; try lia; assumption.
  - exists 0, 0. cbn. repeat split; try lia. intro H. right. exact H.
Qed.

Lemma round_nearest_even_le (r : shr_record) :
  round_nearest_even (shr_m r) (loc_of_shr_record r) <= shr_m r + 1 /\
  (orb (shr_r r) (shr_s r) = false ->
   round_nearest_even (shr_m r) (loc_of_shr_record r) = shr_m r).
Proof.
  destruct r as [m [] []]; cbn [shr_m shr_r shr_s loc_of_shr_record
                                  round_nearest_even orb];
    try (destruct (Z.even m)); split; try lia; try discriminate; reflexivity.
Qed.

Lemma shiftl_le_scaled (m N a j : Z) :
  0 <= m -> 0 <= N -> 0 <= a -> 0 <= j ->
  m * 2 ^ j <= N * 2 ^ a -> Z.shiftl m (j - a) <= N.
Proof.
  intros Hm HN Ha Hj H.
  destruct (Z_le_gt_dec a j) as [L|L].
  - rewrite Z.shiftl_mul_pow2 by lia.
    assert (P : 0 < 2 ^ a) by (apply Z.pow_pos_nonneg; lia).
    apply (Z.mul_le_mono_pos_r _ _ (2 ^ a) P).
    rewrite <- Z.mul_assoc, <- Z.pow_add_r by lia.
    replace (j - a + a) with j by lia. exact H.
  - rewrite Z.shiftl_div_pow2 by lia.
    replace (- (j - a)) with (a - j) by lia.
    assert (P : 0 < 2 ^ j) by (apply Z.pow_pos_nonneg; lia).
    assert (Q : 0 < 2 ^ (a - j)) by (apply Z.pow_pos_nonneg; lia).
    apply Z.div_le_upper_bound; [exact Q|].
    apply (Z.mul_le_mono_pos_r _ _ (2 ^ j) P).
    rewrite (Z.mul_comm (2 ^ (a - j)) N), <- Z.mul_assoc, <- Z.pow_add_r by lia.
    replace (a - j + j) with a by lia. exact H.
Qed.

(** Rounding to nearest does not pass an integer: the product of a number
    that is at most the integer [N], given as [M * 2 ^ E], rounds to a
    float whose integer part is at most [N]. *)
Lemma binary_round_aux_upper (s : bool) (M E N : Z) :
  0 <= M -> E <= 0 -> 0 <= N < 2 ^ fprec -> M <= N * 2 ^ (- E) ->
  match binary_round_aux fprec femax s M E loc_Exact with
  | S754_finite s' m e => s' = s /\ Z.shiftl (Zpos m) e <= N
  | _ => True
  end.
Proof.
  intros HM HE HN HMN.
  unfold binary_round_aux, shr_fexp.
  set (k1 := fexp fprec femax (Zdigits2 M + E) - E).
  destruct (shr_value (shr_record_of_loc M loc_Exact) E k1)
    as (j1 & rem1 & Hj1 & He1 & Hmax1 & Hm1 & Hrem1 & Hval1 & Hin1).
  { rewrite shr_record_of_loc_m. exact HM. }
  destruct (shr (shr_record_of_loc M loc_Exact) E k1) as [r1 E1].
  cbn [fst snd] in *. rewrite shr_record_of_loc_m in Hval1.
  cbn [shr_record_of_loc shr_r shr_s orb] in Hin1.
  assert (P2 : 0 < 2 ^ (- E)) by (apply Z.pow_pos_nonneg; lia).
  assert (Hdig : Zdigits2 M <= fprec - E).
  { apply Zdigits2_lt_pow2; [|lia]. split; [exact HM|].
    replace (fprec - E) with (fprec + - E) by lia.
    rewrite Z.pow_add_r by lia.
    apply Z.le_lt_trans with (N * 2 ^ (- E)); [exact HMN|].
    apply Z.mul_lt_mono_pos_r; lia. }
  assert (HE1 : E1 <= 0).
  { subst k1. unfold fexp, emin in Hmax1. lia. }
  assert (Pj1 : 0 < 2 ^ j1) by (apply Z.pow_pos_nonneg; lia).
  assert (HT : M <= (N * 2 ^ (- E1)) * 2 ^ j1).
  { rewrite <- Z.mul_assoc, <- Z.pow_add_r by lia.
    replace (- E1 + j1) with (- E) by lia. exact HMN. }
  set (T := N * 2 ^ (- E1)) in *.
  destruct (round_nearest_even_le r1) as [Hup Hex].
  set (m2 := round_nearest_even (shr_m r1) (loc_of_shr_record r1)) in *.
  assert (Hm2 : 0 <= m2 <= T).
  { split.
    - subst m2. destruct r1 as [m [] []];
        cbn [shr_m loc_of_shr_record round_nearest_even] in *;
        try (destruct (Z.even m)); lia.
    - destruct (orb (shr_r r1) (shr_s r1)) eqn:I.
      + destruct (Hin1 eq_refl) as [Hr|Hr]; [|discriminate].
        assert (shr_m r1 < T); [|lia].
        apply (Z.mul_lt_mono_pos_r (2 ^ j1)); [exact Pj1 | lia].
      + rewrite (Hex eq_refl).
        apply (Z.mul_le_mono_pos_r _ _ (2 ^ j1)); [exact Pj1 | lia]. }
  set (k2 := fexp fprec femax (Zdigits2 m2 + E1) - E1).
  destruct (shr_value (shr_record_of_loc m2 loc_Exact) E1 k2)
    as (j2 & rem2 & Hj2 & He2 & _ & Hm3 & Hrem2 & Hval2 & _).
  { rewrite shr_record_of_loc_m. lia. }
  destruct (shr (shr_record_of_loc m2 loc_Exact) E1 k2) as [r2 E2].
  cbn [fst snd] in *. rewrite shr_record_of_loc_m in Hval2.
  destruct (shr_m r2) as [|m|m] eqn:Em; try exact I.
  destruct (E2 <=? femax - fprec); [|exact I].
  split; [reflexivity|].
  rewrite He2. replace (E1 + j2) with (j2 - - E1) by lia.
  apply shiftl_le_scaled; lia.
Qed.

(** A canonical mantissa and exponent are left alone by rounding, in any
    format. *)
Lemma binary_round_aux_canonical (s : bool) (m : positive) (e : Z) :
  bounded fprec femax m e = true ->
  binary_round_aux fprec femax s (Zpos m) e loc_Exact = S754_finite s m e.
Proof.
  unfold bounded, canonical_mantissa. intro H.
  apply andb_true_iff in H. destruct H as [Hc Hb].
  apply Z.eqb_eq in Hc.
  unfold binary_round_aux, shr_fexp. cbn [Zdigits2 shr_record_of_loc].
  rewrite Hc, Z.sub_diag.
  cbn [shr shr_m loc_of_shr_record round_nearest_even Zdigits2].
  rewrite Hc, Z.sub_diag. cbn [shr shr_m]. rewrite Hb. reflexivity.
Qed.

Lemma Zpos_iter_xO (n : nat) (m : positive) :
  Zpos (Nat.iter n xO m) = Zpos m * 2 ^ Z.of_nat n.
Proof.
  induction n as [|n IH]; [cbn; lia|].
  rewrite Nat.iter_succ, Pos2Z.inj_xO, IH, Nat2Z.inj_succ, Z.pow_succ_r by lia.
  ring.
Qed.

Lemma Zpos_lt_pow2_digits (m : positive) : Zpos m < 2 ^ Zpos (digits2_pos m).
Proof.
  rewrite digits2_pos_log2.
  destruct (Z.log2_spec (Zpos m)) as [_ H]; [lia|].
  replace (Z.log2 (Zpos m) + 1) with (Z.succ (Z.log2 (Zpos m))) by lia.
  exact H.
Qed.

End RoundingValue.

(** ** Python's conversions in [__init__] *)

Local Open Scope Z_scope.

(** The float of a length is a zero or a positive finite number below
    [2 ^ 64]. *)
Lemma py_float_finite (n : Z) :
  0 <= n < 2 ^ 63 ->
  match py_float n with
  | S754_zero _ => True
  | S754_finite s m e => s = false /\ Zpos (digits2_pos m) + e <= 64 /\ e <= 971
  | _ => False
  end.
Proof.
  intros [H0 H1]. unfold py_float, binary_normalize.
  destruct n as [|p|p]; [exact I| |lia].
  unfold binary_round.
  destruct (shl_align_spec p 0 (fexp 53 1024 (Zpos (digits2_pos p) + 0))) as [S1 S2].
  destruct (shl_align p 0 (fexp 53 1024 (Zpos (digits2_pos p) + 0))) as [mz ez].
  cbn [fst snd] in S1, S2.
  assert (Hd : Zdigits2 (Zpos p) <= 63) by (apply Zdigits2_lt_pow2; lia).
  cbn [Zdigits2] in Hd.
  pose proof (binary_round_aux_finite 53 1024 ltac:(lia) ltac:(lia)
                false (Zpos mz) ez loc_Exact 63) as R.
  cbn [Zdigits2] in R.
  destruct (binary_round_aux 53 1024 false (Zpos mz) ez loc_Exact);
    unfold emin in R; first [exact I | apply R; lia].
Qed.

(** A fraction in (0, 1] is a positive finite number of magnitude at most
    [2 ^ 1]. *)
Lemma unit_fraction_finite (f : float) :
  unit_fraction f ->
  exists m e, f = S754_finite false m e /\
              Zpos (digits2_pos m) + e <= 1 /\ e <= -52.
Proof.
  intros (V & L0 & L1).
  change (py_float 1) with (S754_finite false 4503599627370496 (-52)) in L1.
  change (py_float 0) with (S754_zero false) in L0.
  destruct f as [s | s | | s m e]; try discriminate.
  - destruct s; discriminate.
  - destruct s; try discriminate.
    exists m, e. split; [reflexivity|].
    unfold valid_binary, bounded, canonical_mantissa in V.
    apply andb_true_iff in V. destruct V as [Vc _]. apply Z.eqb_eq in Vc.
    unfold fexp, emin in Vc.
    assert (He : e <= -52).
    { unfold fle, SFleb, SFcompare in L1.
      destruct (Z.compare_spec e (-52)); first [lia | discriminate]. }
    lia.
Qed.

(** [int(n * frac)] does not raise for a length and a fraction in (0, 1],
    and is not negative. *)
Lemma py_int_product (n : Z) (f : float) :
  0 <= n < 2 ^ 63 -> unit_fraction f ->
  exists k, py_int (py_mul (py_float n) f) = inr k /\ 0 <= k.
Proof.
  intros Hn Hf. pose proof (py_float_finite n Hn) as Fn.
  destruct (unit_fraction_finite f Hf) as (mf & ef & -> & Df & Ef).
  destruct (py_float n) as [s | s | | s mn en]; try contradiction.
  - exists 0. split; [reflexivity | lia].
  - destruct Fn as (-> & Dn & En). unfold py_mul. cbn [SFmul xorb].
    pose proof (binary_round_aux_finite 53 1024 ltac:(lia) ltac:(lia)
                  false (Zpos (mn * mf)) (en + ef) loc_Exact 65) as R.
    cbn [Zdigits2] in R. pose proof (Zdigits2_mul mn mf) as Dm.
    destruct (binary_round_aux 53 1024 false (Zpos (mn * mf)) (en + ef) loc_Exact)
      as [s' | s' | | s' m' e'].
    + exists 0. split; [reflexivity | lia].
    + exfalso. apply R; lia.
    + exfalso. apply R; lia.
    + destruct R as (-> & _); [lia..|].
      eexists. split; [reflexivity|]. cbn [cond_Zopp].
      apply Z.shiftl_nonneg. lia.
Qed.

Lemma subset_sizes_ok (n : Z) (fracs : list float) :
  0 <= n < 2 ^ 63 -> Forall unit_fraction fracs ->
  exists sizes,
    subset_sizes_of n fracs = inr sizes /\
    Forall2 (fun f k => py_int (py_mul (py_float n) f) = inr k /\ 0 <= k)
            fracs sizes.
Proof.
  intros Hn Hf. induction Hf as [|f fracs Hf _ IH].
  - exists []. split; [reflexivity | constructor].
  - destruct (py_int_product n f Hn Hf) as (k & Ek & Hk).
    destruct IH as (ks & Eks & Fks).
    exists (k :: ks). cbn [subset_sizes_of]. rewrite Ek, Eks.
    split; [reflexivity | constructor; auto].
Qed.

Lemma Zsum_app (l : list Z) (x : Z) : Zsum (l ++ [x]) = Zsum l + x.
Proof. unfold Zsum. rewrite fold_left_app. reflexivity. Qed.

Local Close Scope Z_scope.

(** ** The sizes of the subsets stay within the dataset *)

Local Open Scope Z_scope.

(** A length below [2 ^ 53] is a float. *)
Lemma py_float_exact (n : Z) :
  0 < n < 2 ^ 53 ->
  exists m e, py_float n = S754_finite false m e /\ e <= 0 /\
              Zpos m = n * 2 ^ (- e).
Proof.
  intros [H0 H1]. destruct n as [|p|p]; try lia.
  unfold py_float, binary_normalize, binary_round.
  assert (Hd : 1 <= Zpos (digits2_pos p) <= 53).
  { split; [lia|]. apply (Zdigits2_lt_pow2 (Zpos p) 53); lia. }
  assert (Hf : fexp 53 1024 (Zpos (digits2_pos p) + 0) = Zpos (digits2_pos p) - 53).
  { unfold fexp, emin. lia. }
  rewrite Hf. unfold shl_align.
  destruct (Zpos (digits2_pos p) - 53 - 0) as [|q|q] eqn:Eq; try lia.
  - rewrite (binary_round_aux_canonical 53 1024).
    + exists p, 0. split; [reflexivity|]. split; [lia|]. cbn. lia.
    + unfold bounded, canonical_mantissa. rewrite Hf.
      apply andb_true_iff. split; [apply Z.eqb_eq; lia | reflexivity].
  - rewrite pos_iter_nat.
    rewrite (binary_round_aux_canonical 53 1024).
    + eexists. eexists. split; [reflexivity|]. split; [lia|].
      rewrite Zpos_iter_xO, positive_nat_Z.
      replace (- (Zpos (digits2_pos p) - 53)) with (Zpos q) by lia. reflexivity.
    + unfold bounded, canonical_mantissa.
      rewrite digits2_pos_shift, positive_nat_Z.
      apply andb_true_iff. split; [apply Z.eqb_eq | apply Z.leb_le].
      * unfold fexp, emin. lia.
      * lia.
Qed.

(** A fraction in (0, 1] is a positive float of value at most 1. *)
Lemma unit_fraction_value (f : float) :
  unit_fraction f ->
  exists m e, f = S754_finite false m e /\ e <= -52 /\ Zpos m <= 2 ^ (- e).
Proof.
  intro Hf. destruct (unit_fraction_finite f Hf) as (m & e & -> & _ & He).
  destruct Hf as (V & _ & L1).
  exists m, e. split; [reflexivity|]. split; [exact He|].
  change (py_float 1) with (S754_finite false 4503599627370496 (-52)) in L1.
  unfold valid_binary, bounded, canonical_mantissa in V.
  apply andb_true_iff in V. destruct V as [Vc _]. apply Z.eqb_eq in Vc.
  unfold fexp, emin in Vc.
  pose proof (Zpos_lt_pow2_digits m) as Hm.
  assert (Hdig : Zpos (digits2_pos m) <= 53) by lia.
  destruct (Z.eq_dec e (-52)) as [->|Hne].
  - replace (2 ^ (- -52)) with 4503599627370496 by (vm_compute; reflexivity).
    apply fle_iff in L1. destruct L1 as (_ & _ & [K|K]).
    + cbn [order_key key_lt] in K. lia.
    + cbn [order_key] in K. inversion K. lia.
  - apply Z.lt_le_incl, (Z.lt_le_trans _ _ _ Hm).
    apply Z.pow_le_mono_r; lia.
Qed.

(** [int(n * frac)] is at most [n]. *)
Lemma py_int_product_le (n : Z) (f : float) :
  0 <= n < 2 ^ 53 -> unit_fraction f ->
  exists k, py_int (py_mul (py_float n) f) = inr k /\ 0 <= k <= n.
Proof.
  intros Hn Hf.
  destruct (py_int_product n f) as (k & Ek & Hk); [lia | exact Hf|].
  exists k. split; [exact Ek|]. split; [exact Hk|].
  destruct (unit_fraction_value f Hf) as (mf & ef & -> & Hef & Hmf).
  destruct (Z.eq_dec n 0) as [->|Hn0].
  - cbn in Ek. inversion Ek. lia.
  - destruct (py_float_exact n) as (mn & en & En & Hen & Hmn); [lia|].
    rewrite En in Ek. unfold py_mul in Ek. cbn [SFmul xorb] in Ek.
    pose proof (binary_round_aux_upper 53 1024 ltac:(lia) ltac:(lia)
                  false (Zpos (mn * mf)) (en + ef) n) as R.
    destruct (binary_round_aux 53 1024 false (Zpos (mn * mf)) (en + ef) loc_Exact)
      as [s' | s' | | s' m' e']; cbn [py_int] in Ek; try discriminate.
    + inversion Ek. lia.
    + destruct R as [-> R]; try lia.
      * rewrite Pos2Z.inj_mul, Hmn.
        replace (- (en + ef)) with (- en + - ef) by lia.
        rewrite Z.pow_add_r by lia.
        assert (0 < 2 ^ (- en)) by (apply Z.pow_pos_nonneg; lia).
        rewrite <- Z.mul_assoc. apply Z.mul_le_mono_nonneg_l; [lia|].
        apply Z.mul_le_mono_nonneg_l; lia.
      * cbn [cond_Zopp] in Ek. inversion Ek. subst k. exact R.
Qed.

Lemma subset_sizes_bounded (n : Z) (fracs : list float) :
  0 <= n < 2 ^ 53 -> Forall unit_fraction fracs ->
  exists sizes,
    subset_sizes_of n fracs = inr sizes /\
    length sizes = length fracs /\
    Forall (fun k => 0 <= k <= n) sizes.
Proof.
  intros Hn Hf. induction Hf as [|f fracs Hf _ IH].
  - exists []. split; [reflexivity|]. split; [reflexivity | constructor].
  - destruct (py_int_product_le n f Hn Hf) as (k & Ek & Hk).
    destruct IH as (ks & Eks & Lks & Fks).
    exists (k :: ks). cbn [subset_sizes_of]. rewrite Ek, Eks.
    split; [reflexivity|]. split; [cbn; lia | constructor; auto].
Qed.

Local Close Scope Z_scope.

(** ** The loop with a validation set tracks the first best iteration *)

Lemma flt_false_fle (x y : float) :
  is_nan x = false -> is_nan y = false -> flt x y = false -> fle y x = true.
Proof.
  intros Nx Ny L. destruct (fle y x) eqn:E; [reflexivity|].
  apply fle_false_flt in E; congruence.
Qed.

Lemma keeps_refl (x : float) : keeps x x.
Proof. left. reflexivity. Qed.

Lemma keeps_trans (x r r' : float) : keeps x r -> keeps r r' -> keeps x r'.
Proof.
  intros [E1 | [E1 E2]] [E3 | [E3 E4]]; subst.
  - left. reflexivity.
  - right. split; reflexivity.
  - right. split; reflexivity.
  - discriminate.
Qed.

Lemma keeps_flt_r (x r y : float) : keeps x r -> flt y r = flt y x.
Proof.
  intros [-> | [-> ->]]; [reflexivity|].
  destruct y as [ | [] | | [] ]; reflexivity.
Qed.

Lemma fzero_valid : fvalid fzero = true.
Proof. reflexivity. Qed.

Lemma fone_not_nan : is_nan fone = false.
Proof. rewrite fone_eq. reflexivity. Qed.

(** One more error: the tracked iteration changes exactly when the new
    error is strictly below the tracked one. *)
Lemma first_best_step (errs : nat -> float) (n : nat) (best : option nat)
    (me : float) :
  (forall j, 1 <= j <= S n -> fle (errs j) fone = true) ->
  first_best errs n best ->
  keeps (match best with Some k => errs k | None => fone end) me ->
  first_best errs (S n) (if flt (errs (S n)) me then Some (S n) else best).
Proof.
  intros Hunit FB K.
  assert (Hnan : forall j, 1 <= j <= S n -> is_nan (errs j) = false).
  { intros j Hj. apply (fle_not_nan _ _ (Hunit j Hj)). }
  rewrite (keeps_flt_r _ _ _ K). clear K.
  destruct (flt (errs (S n)) (match best with Some k => errs k | None => fone end))
    eqn:L.
  - assert (Hlt : forall j, 1 <= j < S n -> flt (errs (S n)) (errs j) = true).
    { intros j Hj. destruct best as [k|]; cbn [first_best] in FB.
      - destruct FB as (Hk & _ & Hmin & _).
        apply (flt_fle_trans _ (errs k)); [exact L | apply Hmin; lia].
      - apply (flt_fle_trans _ fone); [exact L|].
        apply flt_false_fle;
          [apply Hnan; lia | apply fone_not_nan | apply FB; lia]. }
    cbn [first_best]. split; [lia|]. split; [|split].
    + destruct best as [k|]; cbn [first_best] in FB; [|exact L].
      destruct FB as (Hk & _ & _ & _).
      apply (flt_fle_trans _ (errs k)); [exact L | apply Hunit; lia].
    + intros j Hj. destruct (Nat.eq_dec j (S n)) as [->|Hne].
      * apply fle_refl, Hnan. lia.
      * apply flt_fle, Hlt. lia.
    + exact Hlt.
  - destruct best as [k|]; cbn [first_best] in FB |- *.
    + destruct FB as (Hk & H1 & Hmin & Hfirst).
      split; [lia|]. split; [exact H1|]. split; [|exact Hfirst].
      intros j Hj. destruct (Nat.eq_dec j (S n)) as [->|Hne].
      * apply flt_false_fle; [apply Hnan; lia | apply Hnan; lia | exact L].
      * apply Hmin. lia.
    + intros j Hj. destruct (Nat.eq_dec j (S n)) as [->|Hne];
        [exact L | apply FB; lia].
Qed.

Lemma iterate_shape self lt ft lm k :
  shape (weights (iterate self lt ft lm k)) = shape (weights lm).
Proof.
  induction k as [|k IH]; [reflexivity|].
  unfold iterate in *. cbn [Nat.iter]. rewrite <- IH.
  unfold grad_step. apply grad_update_shape.
Qed.

Lemma in_range_snoc (s : list nat) (dim : nat) (i : index) (d : nat) :
  in_range s i -> d < dim -> in_range (s ++ [dim]) (i ++ [d]).
Proof.
  intros Hi Hd. apply Forall2_app; [exact Hi|]. constructor; [exact Hd|constructor].
Qed.

Lemma val_step_tracked nobs npred dim self lt ft lv fv lm n st :
  rate_shape nobs npred dim -> rate_unit nobs npred dim ->
  shape (weights lm) = [nobs; npred; dim] ->
  (forall k, 1 <= k <= S n -> weights_finite (iterate self lt ft lm k)) ->
  shape_inv nobs npred dim st ->
  tracked self lt ft lv fv lm nobs npred dim n st ->
  exists st', val_step self lt ft lv fv st = Some st' /\
    shape_inv nobs npred dim st' /\
    tracked self lt ft lv fv lm nobs npred dim (S n) st'.
Proof.
  intros Hrate Hunit Hlm Hfin Hst Htr.
  destruct (val_step_shapes nobs npred dim self lt ft lv fv st Hrate Hst)
    as (st' & E & Hst' & Hm & _).
  exists st'. split; [exact E|]. split; [exact Hst'|].
  destruct st as [[[lm0 bar] mw] me].
  unfold shape_inv, tracked, st_model, st_bar, st_weights, st_errors in *.
  cbn [fst snd] in *. cbv zeta in *.
  destruct Hst as [Hlm0 (pre & t & Hs & Hme & Hmw)].
  destruct Htr as (Hmod & _ & Htr).
  unfold val_step in E.
  destruct (grad_update self lm0 lt ft bar) as [lm1 bar1] eqn:G.
  pose proof (grad_update_model self lm0 lt ft bar) as G1.
  rewrite G in G1. cbn [fst] in G1.
  assert (Hlm1 : lm1 = iterate self lt ft lm (S n)).
  { rewrite G1, Hmod. reflexivity. }
  assert (Sh : forall k, shape (weights (iterate self lt ft lm k))
                         = [nobs; npred; dim]).
  { intro k. rewrite iterate_shape. exact Hlm. }
  destruct (pairwise_select_elem pre t dim
              (conditional_one_rate lm1 fv (transpose lv)) me (weights lm1) mw)
    as (mw' & me' & Eq & Sm & Sw & Ee & Ew).
  - rewrite Hs. apply Hrate. rewrite Hlm1. apply Sh.
  - exact Hme.
  - rewrite Hs, Hlm1. apply Sh.
  - exact Hmw.
  - rewrite Eq in E. inversion E; subst st'. cbn [fst snd] in *.
    rewrite Hs in Sm, Sw, Ee, Ew. cbn [app] in Sw, Ew.
    split; [exact Hlm1|]. split; [intros _; split; assumption|].
    intros i Hi.
    destruct (Htr i Hi) as (best & FB & Ke & Kw).
    assert (Hip : in_range (pre ++ t) i) by (rewrite Hs; exact Hi).
    rewrite Hme, (bidx_suffix _ _ _ Hip) in Ke.
    set (errs := fun k =>
           elem (conditional_one_rate (iterate self lt ft lm k) fv (transpose lv)) i)
      in *.
    assert (U : forall j, fvalid (errs j) = true /\ is_finite (errs j) = true /\
                          fle (errs j) fone = true).
    { intro j. destruct (Hunit (iterate self lt ft lm j) fv (transpose lv) i
                           (Sh j) Hi) as (V & L0 & L1).
      repeat split; [exact V | apply unit_finite; assumption | exact L1]. }
    set (old := elem me (skipn (length pre) i)) in *.
    assert (Vold : fvalid old = true /\ is_finite old = true).
    { split.
      - apply (keeps_valid _ _ Ke). destruct best as [k|];
          [apply U | apply fone_valid].
      - rewrite (keeps_finite _ _ Ke). destruct best as [k|];
          [apply U | apply fone_finite]. }
    exists (if flt (errs (S n)) old then Some (S n) else best).
    split; [|split].
    + apply first_best_step; [intros j _; apply U | exact FB | exact Ke].
    + rewrite Sm, (bidx_id _ _ Hi), (Ee i Hi).
      rewrite Hlm1. fold (errs (S n)). fold old.
      pose proof (blend_selects old (errs (S n)) (flt (errs (S n)) old)
                    (proj1 Vold) (proj1 (U (S n))) (proj2 Vold)
                    (proj1 (proj2 (U (S n))))) as B.
      destruct (flt (errs (S n)) old); [exact B|].
      exact (keeps_trans _ _ _ Ke B).
    + intros d Hd.
      pose proof (in_range_snoc _ dim i d Hi Hd) as Hid. cbn [app] in Hid.
      specialize (Kw d Hd).
      assert (Hidp : in_range (pre ++ (t ++ [dim])) (i ++ [d])).
      { rewrite app_assoc, Hs. exact Hid. }
      rewrite Hmw, (bidx_suffix _ _ _ Hidp) in Kw.
      rewrite Sw, (bidx_id _ _ Hid), (Ew _ Hid), removelast_last.
      rewrite Hlm1. fold (errs (S n)). fold old.
      set (oldw := elem mw (skipn (length pre) (i ++ [d]))) in *.
      set (neww := elem (weights (iterate self lt ft lm (S n))) (i ++ [d])).
      assert (Vnew : fvalid neww = true /\ is_finite neww = true).
      { apply (Hfin (S n)); [lia|]. rewrite Sh. exact Hid. }
      assert (Voldw : fvalid oldw = true /\ is_finite oldw = true).
      { destruct best as [k|].
        - cbn [first_best] in FB. destruct FB as (Hk & _).
          destruct (Hfin k ltac:(lia) (i ++ [d])) as [V F];
            [rewrite Sh; exact Hid|].
          split; [apply (keeps_valid _ _ Kw V) | rewrite (keeps_finite _ _ Kw); exact F].
        - split; [apply (keeps_valid _ _ Kw fzero_valid)
                 | rewrite (keeps_finite _ _ Kw); reflexivity]. }
      pose proof (blend_selects oldw neww (flt (errs (S n)) old)
                    (proj1 Voldw) (proj1 Vnew) (proj2 Voldw) (proj2 Vnew)) as B.
      destruct (flt (errs (S n)) old); [exact B|].
      exact (keeps_trans _ _ _ Kw B).
Qed.

Lemma val_loop_tracked nobs npred dim self lt ft lv fv lm n st :
  rate_shape nobs npred dim -> rate_unit nobs npred dim ->
  shape (weights lm) = [nobs; npred; dim] ->
  (forall k, 1 <= k <= n -> weights_finite (iterate self lt ft lm k)) ->
  shape_inv nobs npred dim st ->
  tracked self lt ft lv fv lm nobs npred dim 0 st ->
  exists st', val_loop n self lt ft lv fv st = Some st' /\
    shape_inv nobs npred dim st' /\
    tracked self lt ft lv fv lm nobs npred dim n st'.
Proof.
  intros Hrate Hunit Hlm Hfin Hst Htr.
  induction n as [|n IH].
  - exists st. split; [reflexivity|]. split; assumption.
  - destruct IH as (st1 & E1 & Hst1 & Htr1); [intros k Hk; apply Hfin; lia|].
    rewrite val_loop_snoc, E1.
    apply (val_step_tracked nobs npred dim self lt ft lv fv lm n st1); assumption.
Qed.

Lemma error_tracker_tracked nobs npred dim self lt ft lv fv lm bar dev :
  tracked self lt ft lv fv lm nobs npred dim 0
    (lm, bar, fst (error_tracker [nobs; npred; dim] dev),
     snd (error_tracker [nobs; npred; dim] dev)).
Proof.
  unfold tracked, st_model, st_bar, st_weights, st_errors. cbn [fst snd]. cbv zeta.
  split; [reflexivity|]. split; [lia|].
  intros i Hi. exists None. split; [|split].
  - intros j Hj. lia.
  - apply keeps_refl.
  - intros d Hd. apply keeps_refl.
Qed.

(** ** What the progress bar displays *)

Lemma grad_update_bar self lm labels features bar :
  snd (grad_update self lm labels features bar)
  = mkProgress (bar_total bar) (converged lm labels features)
               (converged lm labels features :: bar_shown bar) (bar_closed bar).
Proof. reflexivity. Qed.

Lemma bar_after_succ self labels features lm n bar :
  snd (grad_update self (iterate self labels features lm n) labels features
         (bar_after self labels features lm n bar))
  = bar_after self labels features lm (S n) bar.
Proof.
  rewrite grad_update_bar. unfold bar_after. cbv zeta. cbn [bar_total bar_shown bar_closed].
  rewrite seq_S, map_app, rev_app_distr. reflexivity.
Qed.

Lemma train_loop_snoc n self labels features st :
  train_loop (S n) self labels features st
  = grad_update self (fst (train_loop n self labels features st)) labels features
      (snd (train_loop n self labels features st)).
Proof.
  revert st. induction n as [|n IH]; intro st; [reflexivity|].
  change (train_loop (S (S n)) self labels features st)
    with (train_loop (S n) self labels features
            (grad_update self (fst st) labels features (snd st))).
  rewrite IH. reflexivity.
Qed.

Lemma train_loop_trace n self labels features lm bar :
  train_loop n self labels features (lm, bar)
  = (iterate self labels features lm n, bar_after self labels features lm n bar).
Proof.
  induction n as [|n IH].
  - cbn [train_loop]. unfold iterate, bar_after. cbn [Nat.iter seq map rev app].
    destruct bar; reflexivity.
  - rewrite train_loop_snoc, IH. cbn [fst snd].
    rewrite (surjective_pairing (grad_update _ _ _ _ _)).
    rewrite bar_after_succ, grad_update_model. reflexivity.
Qed.

Lemma val_step_trace self lt ft lv fv st st' :
  val_step self lt ft lv fv st = Some st' ->
  st_model st' = fst (grad_update self (st_model st) lt ft (st_bar st)) /\
  st_bar st' = snd (grad_update self (st_model st) lt ft (st_bar st)).
Proof.
  destruct st as [[[lm bar] mw] me]. unfold val_step, st_model, st_bar.
  cbn [fst snd].
  destruct (grad_update self lm lt ft bar) as [lm1 bar1].
  destruct (pairwise_select _ _ _ _) as [[mw' me']|]; [|discriminate].
  intro E. inversion E; subst. split; reflexivity.
Qed.

Lemma val_loop_trace n self lt ft lv fv st st' :
  val_loop n self lt ft lv fv st = Some st' ->
  st_model st' = iterate self lt ft (st_model st) n /\
  st_bar st' = bar_after self lt ft (st_model st) n (st_bar st).
Proof.
  revert st'. induction n as [|n IH]; intros st' E.
  - cbn [val_loop] in E. inversion E; subst st'.
    unfold iterate, bar_after. cbn [Nat.iter seq map rev app].
    split; [reflexivity|]. destruct (st_bar st); reflexivity.
  - rewrite val_loop_snoc in E.
    destruct (val_loop n self lt ft lv fv st) as [st1|]; [|discriminate].
    destruct (IH st1 eq_refl) as [M B].
    destruct (val_step_trace _ _ _ _ _ _ _ E) as [M' B'].
    rewrite M, B in M', B'. rewrite bar_after_succ in B'.
    rewrite grad_update_model in M'. split; assumption.
Qed.

(** Whatever the branch, a run that returns leaves the bar of the gradient
    updates, closed. *)
Lemma PGDOptim_bar self lin_model dataset_train dataset_val bar model bar' :
  PGDOptim self lin_model dataset_train dataset_val bar = Some (model, bar') ->
  bar' = close (bar_after self (labels dataset_train) (features dataset_train)
                  lin_model (Z.to_nat (num_iter self)) bar).
Proof.
  unfold PGDOptim, getall. destruct dataset_val as [dv|].
  - destruct (error_tracker (size lin_model) (device self)) as [mw me].
    destruct (val_loop _ _ _ _ _ _ _) as [[[[lm1 bar1] mw1] me1]|] eqn:E;
      [|discriminate].
    intro R. inversion R; subst.
    apply val_loop_trace in E. unfold st_bar, st_model in E. cbn [fst snd] in E.
    destruct E as [_ ->]. reflexivity.
  - rewrite train_loop_trace. intro R. inversion R; subst. reflexivity.
Qed.

Lemma indices_length (s : list nat) :
  length (indices s) = fold_right Nat.mul 1 s.
Proof.
  induction s as [|d s IH]; [reflexivity|].
  cbn [indices fold_right].
  assert (H : forall l : list nat,
             length (flat_map (fun k => map (cons k) (indices s)) l)
             = length l * length (indices s)).
  { induction l as [|k l IHl]; [reflexivity|].
    cbn [flat_map]. rewrite length_app, length_map, IHl. reflexivity. }
  rewrite H, length_seq, IH. reflexivity.
Qed.

Lemma count_true_le (t : tensor bool) :
  count_true t <= fold_right Nat.mul 1 (shape t).
Proof.
  unfold count_true. rewrite <- indices_length. apply filter_length_le.
Qed.

Lemma converged_le nobs npred dim lm labels features :
  shape (proj_grad lm features (transpose labels)) = [nobs; npred; dim] ->
  converged lm labels features <= nobs * npred.
Proof.
  intro H. unfold converged.
  etransitivity; [apply count_true_le|].
  unfold tmap, norm_last. cbn [shape]. rewrite H. cbn [removelast fold_right]. lia.
Qed.

Lemma bar_after_le nobs npred dim self labels features lm n bar :
  shape (weights lm) = [nobs; npred; dim] -> grad_shape nobs npred dim ->
  bar_n bar <= nobs * npred ->
  Forall (fun c => c <= nobs * npred) (bar_shown bar) ->
  bar_n (bar_after self labels features lm n bar) <= nobs * npred /\
  Forall (fun c => c <= nobs * npred)
         (bar_shown (bar_after self labels features lm n bar)).
Proof.
  intros Hlm Hg Hn Hs.
  assert (C : forall k, converged (iterate self labels features lm k)
                          labels features <= nobs * npred).
  { intro k. apply (converged_le nobs npred dim). apply Hg.
    rewrite iterate_shape. exact Hlm. }
  unfold bar_after. cbv zeta. cbn [bar_n bar_shown]. split.
  - destruct n; [exact Hn | apply C].
  - apply Forall_app. split; [|exact Hs].
    apply Forall_rev, Forall_map, Forall_forall. intros k _. apply C.
Qed.

(** ** The loop with a validation set, iteration by iteration *)





Lemma PGDOptim_returns self lin_model dataset_train dataset_val bar nobs npred dim :
  shape (weights lin_model) = [nobs; npred; dim] -> npred <> 1 -> dim <> 1 ->
  rate_shape nobs npred dim ->
  exists model bar',
    PGDOptim self lin_model dataset_train (Some dataset_val) bar
    = Some (model, bar').
Proof.
  intros Hlm HP HD Hrate. unfold PGDOptim, getall.
  pose proof (error_tracker_shapes nobs npred dim (device self) HP HD) as T.
  unfold size. rewrite Hlm.
  destruct (error_tracker [nobs; npred; dim] (device self)) as [mw me].
  cbn [fst snd] in T.
  destruct (val_loop_shapes nobs npred dim (Z.to_nat (num_iter self)) self
              (labels dataset_train) (features dataset_train)
              (labels dataset_val) (features dataset_val)
              (lin_model, bar, mw, me) Hrate)
    as (st' & E & _).
  { split; assumption. }
  rewrite E. destruct st' as [[[lm' bar'] mw'] me'].
  exists (mkLinearModel mw'), (close bar'). reflexivity.
Qed.

(** ** The merge next to a squeezed tracker *)

(** One feature: the squeezed best weights [[nobs; npred]] do not broadcast
    with the mask [[nobs; npred; 1]]. *)
Lemma broadcast_shapes_one_feature (nobs npred : nat) :
  nobs <> 1 -> npred <> 1 -> nobs <> npred ->
  broadcast_shapes [nobs; npred] [nobs; npred; 1] = None.
Proof.
  intros HO HP HOP. unfold broadcast_shapes. cbn [rev app broadcast_rev].
  apply Nat.eqb_neq in HO, HP, HOP. rewrite HOP, HO, HP. reflexivity.
Qed.

Lemma pairwise_select_one_feature (nobs npred : nat)
    (ce me cw mw : tensor float) :
  nobs <> 1 -> npred <> 1 -> nobs <> npred ->
  shape ce = [nobs; npred] -> shape me = [nobs; npred] ->
  shape mw = [nobs; npred] ->
  pairwise_select ce me cw mw = None.
Proof.
  intros HO HP HOP Hce Hme Hmw.
  unfold pairwise_select, tmap2, tnot, tmap, unsqueeze_last. cbn [shape elem].
  rewrite Hce, Hme, Hmw.
  repeat (rewrite broadcast_shapes_refl; cbn [shape elem]).
  cbn [app]. rewrite broadcast_shapes_one_feature by assumption. reflexivity.
Qed.

(** One predictor: the squeezed best errors [[nobs]] broadcast with the
    current errors [[nobs; 1]] to [[nobs; nobs]]. *)
Lemma pairwise_select_one_predictor (nobs dim : nat)
    (ce me cw mw : tensor float) :
  nobs <> 1 -> dim <> 1 ->
  shape ce = [nobs; 1] -> shape cw = [nobs; 1; dim] ->
  (shape me = [nobs] /\ shape mw = [nobs; dim]) \/
  (shape me = [nobs; nobs] /\ shape mw = [nobs; nobs; dim]) ->
  exists mw' me',
    pairwise_select ce me cw mw = Some (mw', me') /\
    shape me' = [nobs; nobs] /\ shape mw' = [nobs; nobs; dim].
Proof.
  intros HO HD Hce Hcw Hm.
  assert (HO' : (1 =? nobs) = false) by (apply Nat.eqb_neq; lia).
  assert (HD' : (1 =? dim) = false) by (apply Nat.eqb_neq; lia).
  apply Nat.eqb_neq in HO, HD.
  unfold pairwise_select, tmap2, tnot, tmap, unsqueeze_last. cbn [shape elem].
  rewrite Hce, Hcw.
  destruct Hm as [[Hme Hmw] | [Hme Hmw]]; rewrite Hme, Hmw;
    unfold broadcast_shapes;
    repeat (cbn [rev app broadcast_rev option_map shape elem];
            rewrite ?Nat.eqb_refl, ?HO, ?HO', ?HD, ?HD');
    eexists; eexists; split; try reflexivity; split; reflexivity.
Qed.

Lemma val_step_one_predictor nobs dim self lt ft lv fv st :
  nobs <> 1 -> dim <> 1 -> rate_shape nobs 1 dim ->
  shape (weights (st_model st)) = [nobs; 1; dim] ->
  (shape (st_errors st) = [nobs] /\ shape (st_weights st) = [nobs; dim]) \/
  (shape (st_errors st) = [nobs; nobs] /\
   shape (st_weights st) = [nobs; nobs; dim]) ->
  exists st', val_step self lt ft lv fv st = Some st' /\
    shape (weights (st_model st')) = [nobs; 1; dim] /\
    shape (st_errors st') = [nobs; nobs] /\
    shape (st_weights st') = [nobs; nobs; dim].
Proof.
  intros HO HD Hrate Hlm Hm. destruct st as [[[lm bar] mw] me].
  unfold st_model, st_bar, st_weights, st_errors in *. cbn [fst snd] in *.
  unfold val_step.
  pose proof (grad_update_shape self lm lt ft bar) as S1.
  destruct (grad_update self lm lt ft bar) as [lm1 bar1]. cbn [fst] in S1.
  rewrite Hlm in S1.
  destruct (pairwise_select_one_predictor nobs dim
              (conditional_one_rate lm1 fv (transpose lv)) me (weights lm1) mw
              HO HD (Hrate _ _ _ S1) S1 Hm)
    as (mw' & me' & E & Sm & Sw).
  rewrite E. eexists. split; [reflexivity|]. cbn [fst snd].
  repeat split; assumption.
Qed.

Lemma val_loop_one_predictor nobs dim n self lt ft lv fv st :
  nobs <> 1 -> dim <> 1 -> rate_shape nobs 1 dim ->
  shape (weights (st_model st)) = [nobs; 1; dim] ->
  shape (st_errors st) = [nobs] -> shape (st_weights st) = [nobs; dim] ->
  exists st', val_loop (S n) self lt ft lv fv st = Some st' /\
    shape (weights (st_model st')) = [nobs; 1; dim] /\
    shape (st_errors st') = [nobs; nobs] /\
    shape (st_weights st') = [nobs; nobs; dim].
Proof.
  intros HO HD Hrate Hlm Hme Hmw. induction n as [|n IH].
  - cbn [val_loop].
    destruct (val_step_one_predictor nobs dim self lt ft lv fv st HO HD Hrate Hlm)
      as (st' & E & H); [left; split; assumption|].
    rewrite E. exists st'. split; [reflexivity | exact H].
  - destruct IH as (st1 & E1 & Hlm1 & Hme1 & Hmw1).
    rewrite val_loop_snoc, E1.
    apply (val_step_one_predictor nobs dim self lt ft lv fv st1 HO HD Hrate Hlm1).
    right. split; assumption.
Qed.

(** ** Fractions that are not numbers *)

Lemma py_sum_nan (l : list float) : In S754_nan l -> py_sum l = S754_nan.
Proof.
  unfold py_sum. generalize (py_float 0).
  assert (N : forall l', fold_left py_add l' S754_nan = S754_nan).
  { induction l' as [|x l' IH]; [reflexivity | exact IH]. }
  induction l as [|x l IH]; intros acc H; [destruct H|].
  cbn [fold_left]. destruct H as [->|H].
  - replace (py_add acc S754_nan) with S754_nan by (destruct acc; reflexivity).
    apply N.
  - apply IH, H.
Qed.

Lemma py_int_raises (x : float) (e : exn) :
  py_int x = inl e ->
  e = ValueError "cannot convert float NaN to integer" \/ e = OverflowError.
Proof.
  destruct x; cbn [py_int]; intro H; inversion H; auto.
Qed.

Lemma subset_sizes_nan (n : Z) (fracs : list float) :
  In S754_nan fracs ->
  exists e, subset_sizes_of n fracs = inl e /\
            (e = ValueError "cannot convert float NaN to integer"
             \/ e = OverflowError).
Proof.
  induction fracs as [|f fracs IH]; intro H; [destruct H|].
  cbn [subset_sizes_of].
  destruct (py_int (py_mul (py_float n) f)) as [e|k] eqn:E.
  - exists e. split; [reflexivity | apply (py_int_raises _ _ E)].
  - destruct H as [->|H].
    + replace (py_mul (py_float n) S754_nan) with S754_nan in E
        by (destruct (py_float n); reflexivity).
      discriminate.
    + destruct (IH H) as (e & -> & He). exists e. split; [reflexivity | exact He].
Qed.

(** ** The claims *)


(** C4. For fractions in (0, 1], [__init__] raises one of its two
    configuration errors if and only if the sum of the fractions (as
    Python's [sum] computes it) is above 1 or their number is neither 1 nor
    2; and when it does, it has printed the two sizes and has not called
    [random_split]: no dataset has been partitioned. *)
Theorem init_raises_iff (prev_header : string) (dataset : Dataset)
    (subset_fracs : list float) (num_iter : Z) (lr : float) (device : string) :
  Forall unit_fraction subset_fracs ->
  (Z.of_nat (len dataset) < 2 ^ 63)%Z ->
  (config_error prev_header
     (snd (init prev_header dataset subset_fracs num_iter lr device))
   <-> (flt (py_float 1) (py_sum subset_fracs) = true \/
        (length subset_fracs <> 1 /\ length subset_fracs <> 2))) /\
  (config_error prev_header
     (snd (init prev_header dataset subset_fracs num_iter lr device)) ->
   fst (init prev_header dataset subset_fracs num_iter lr device)
   = [Print_feature_size (len dataset) (dim_feature dataset);
      Print_label_size (len dataset) (dim_label dataset)]).
Proof.
  intros Hf Hn.
  destruct (subset_sizes_ok (Z.of_nat (len dataset)) subset_fracs
              ltac:(lia) Hf) as (sizes & Es & Fs).
  pose proof (Forall2_length Fs) as L.
  unfold init. rewrite Es.
  destruct (flt (py_float 1) (py_sum subset_fracs)) eqn:S.
  - cbn [fst snd]. split; [|reflexivity].
    split; [auto | intros _; left; reflexivity].
  - destruct sizes as [|k1 [|k2 [|k3 sizes]]]; cbn [fst snd].
    + split; [|reflexivity].
      split; [intros _; right; simpl in L; lia | intros _; right; reflexivity].
    + split.
      * split.
        -- intros [C | C];
             destruct (random_split dataset _) as [|? [|? [|? ?]]]; discriminate.
        -- intros [C | [C _]]; [discriminate | simpl in L; lia].
      * intros [C | C];
          destruct (random_split dataset _) as [|? [|? [|? ?]]]; discriminate.
    + split.
      * split.
        -- intros [C | C];
             destruct (random_split dataset _) as [|? [|? [|? [|? ?]]]]; discriminate.
        -- intros [C | [_ C]]; [discriminate | simpl in L; lia].
      * intros [C | C];
          destruct (random_split dataset _) as [|? [|? [|? [|? ?]]]]; discriminate.
    + split; [|reflexivity].
      split; [intros _; right; simpl in L; lia | intros _; right; reflexivity].
Qed.

(** C5. For one or two fractions in (0, 1] whose sum is not above 1 and a
    dataset of [N] samples, [__init__] computes the sizes [int(N * f)],
    which are not negative, so that [int] is the floor, gives the rest
    [N - sum(sizes)] to the evaluation subset, and passes these lengths,
    whose sum is [N], to [random_split]; with one fraction the subsets are
    the training and the evaluation set and there is no validation set,
    with two they are the training, validation and evaluation set. *)
Theorem init_split_sizes (prev_header : string) (dataset : Dataset)
    (subset_fracs : list float) (num_iter : Z) (lr : float) (device : string) :
  Forall unit_fraction subset_fracs ->
  (Z.of_nat (len dataset) < 2 ^ 63)%Z ->
  flt (py_float 1) (py_sum subset_fracs) = false ->
  length subset_fracs = 1 \/ length subset_fracs = 2 ->
  split_contract ->
  exists sizes self,
    Forall2 (fun f k =>
               py_int (py_mul (py_float (Z.of_nat (len dataset))) f) = inr k /\
               (0 <= k)%Z)
            subset_fracs sizes /\
    Zsum (sizes ++ [(Z.of_nat (len dataset) - Zsum sizes)%Z])
    = Z.of_nat (len dataset) /\
    init prev_header dataset subset_fracs num_iter lr device
    = ([Print_feature_size (len dataset) (dim_feature dataset);
        Print_label_size (len dataset) (dim_label dataset);
        Random_split (sizes ++ [(Z.of_nat (len dataset) - Zsum sizes)%Z])],
       inr self) /\
    (length subset_fracs = 1 ->
     dataset_val self = None /\
     random_split dataset (sizes ++ [(Z.of_nat (len dataset) - Zsum sizes)%Z])
     = [dataset_train self; dataset_eval self]) /\
    (length subset_fracs = 2 ->
     exists val, dataset_val self = Some val /\
     random_split dataset (sizes ++ [(Z.of_nat (len dataset) - Zsum sizes)%Z])
     = [dataset_train self; val; dataset_eval self]).
Proof.
  intros Hf Hn S Hl Hsplit.
  destruct (subset_sizes_ok (Z.of_nat (len dataset)) subset_fracs
              ltac:(lia) Hf) as (sizes & Es & Fs).
  pose proof (Forall2_length Fs) as L.
  exists sizes. unfold init. rewrite S, Es.
  set (lengths := sizes ++ [(Z.of_nat (len dataset) - Zsum sizes)%Z]).
  pose proof (Hsplit dataset lengths) as Hs.
  assert (Hsum : Zsum lengths = Z.of_nat (len dataset)).
  { unfold lengths. rewrite Zsum_app. lia. }
  destruct sizes as [|k1 [|k2 [|k3 sizes]]]; simpl in L; try lia;
    subst lengths; cbn [app length] in *.
  - destruct (random_split dataset _) as [|train [|eval [|? ?]]] eqn:R;
      try discriminate.
    eexists. split; [exact Fs|]. split; [exact Hsum|].
    split; [reflexivity|]. cbn [dataset_val dataset_train dataset_eval].
    split; [auto | intro; lia].
  - destruct (random_split dataset _) as [|train [|val [|eval [|? ?]]]] eqn:R;
      try discriminate.
    eexists. split; [exact Fs|]. split; [exact Hsum|].
    split; [reflexivity|]. cbn [dataset_val dataset_train dataset_eval].
    split; [intro; lia | intros _; exists val; auto].
Qed.

(** C7, as amended.  The tracker starts from the all-zero tensor of the
    weight shape and the all-one tensor of the weight shape without its
    last dimension, each with every dimension of size 1 removed, wherever
    it stands; no error that is at most [1.0] is above the initial one. *)
Theorem error_tracker_squeezed (weight_shape : list nat) (device : string) :
  shape (fst (error_tracker weight_shape device))
  = filter (fun d => negb (d =? 1)) weight_shape /\
  (forall i, elem (fst (error_tracker weight_shape device)) i = fzero) /\
  shape (snd (error_tracker weight_shape device))
  = filter (fun d => negb (d =? 1)) (removelast weight_shape) /\
  (forall i, elem (snd (error_tracker weight_shape device)) i = fone) /\
  (forall e i, fle e fone = true ->
     flt (elem (snd (error_tracker weight_shape device)) i) e = false).
Proof.
  repeat split. intros e i H. apply fle_flt_false, H.
Qed.

(** C8. A gradient step computes the projected gradient from the features
    and the transposed labels and adds exactly [-lr * gradient] to the
    weights of the model, which keep their shape; besides, it sets the
    counter of the progress bar to the number of pairs of an observation
    and a predictor whose gradient has a 2-norm over the feature dimension
    below [0.025], and shows it. *)
Theorem grad_update_step (self : ReferenceClass) (lin_model : LinearModel)
    (labels features : tensor float) (bar : progress) (nobs npred dim : nat) :
  shape (proj_grad lin_model features (transpose labels)) = [nobs; npred; dim] ->
  let proj_grads := proj_grad lin_model features (transpose labels) in
  let model' := fst (grad_update self lin_model labels features bar) in
  let bar' := snd (grad_update self lin_model labels features bar) in
  shape (weights model') = shape (weights lin_model) /\
  (forall i, elem (weights model') i
             = fadd (elem (weights lin_model) i)
                    (fmul (cast (SFopp (lr self))) (elem proj_grads i))) /\
  bar_n bar'
  = length (filter
              (fun op =>
                 flt (norm2 (map (fun d => elem proj_grads [fst op; snd op; d])
                                 (seq 0 dim)))
                     (cast py_0_025))
              (list_prod (seq 0 nobs) (seq 0 npred))) /\
  bar_shown bar' = bar_n bar' :: bar_shown bar /\
  bar_total bar' = bar_total bar /\ bar_closed bar' = bar_closed bar.
Proof.
  intros Hg proj_grads model' bar'.
  split; [reflexivity|]. split; [reflexivity|].
  split; [|repeat split].
  unfold bar', grad_update. cbn [snd refresh set_n bar_n].
  unfold count_true, tmap, norm_last, proj_grads. cbn [shape elem].
  rewrite Hg. cbn [removelast].
  rewrite indices_pairs, filter_map_length.
  unfold lane_last. rewrite Hg. reflexivity.
Qed.

(** ** Further properties of the code *)

(** X1 ([PGDOptim] with a validation set).  For weights of shape
    [[nobs; npred; dim]] ([npred] and [dim] other than 1), at least one
    iteration, validation error rates in [0, 1] and live weights that stay
    finite, the run returns weights of the same shape, and for every
    observation and predictor they are the weights of the first iteration
    with the smallest validation error, if that error is below [1.0], and
    zero otherwise; a negative zero may come out as a positive one. *)
Theorem PGDOptim_returns_first_best (self : ReferenceClass)
    (lin_model : LinearModel) (dataset_train dataset_val : Dataset)
    (bar : progress) (nobs npred dim : nat) :
  shape (weights lin_model) = [nobs; npred; dim] -> npred <> 1 -> dim <> 1 ->
  1 <= Z.to_nat (num_iter self) ->
  rate_shape nobs npred dim -> rate_unit nobs npred dim ->
  (forall k, 1 <= k <= Z.to_nat (num_iter self) ->
     weights_finite (iterate self (labels dataset_train) (features dataset_train)
                       lin_model k)) ->
  exists model bar',
    PGDOptim self lin_model dataset_train (Some dataset_val) bar
    = Some (model, bar') /\
    shape (weights model) = [nobs; npred; dim] /\
    forall o p, o < nobs -> p < npred ->
      exists best,
        first_best
          (fun k =>
             elem (conditional_one_rate
                     (iterate self (labels dataset_train) (features dataset_train)
                        lin_model k)
                     (features dataset_val) (transpose (labels dataset_val)))
                  [o; p])
          (Z.to_nat (num_iter self)) best /\
        forall d, d < dim ->
          keeps (match best with
                 | Some k =>
                     elem (weights (iterate self (labels dataset_train)
                                      (features dataset_train) lin_model k))
                          [o; p; d]
                 | None => fzero
                 end)
                (elem (weights model) [o; p; d]).
Proof.
  intros Hlm HP HD Hn Hrate Hunit Hfin. unfold PGDOptim, getall, size.
  rewrite Hlm.
  pose proof (error_tracker_shapes nobs npred dim (device self) HP HD) as T.
  pose proof (error_tracker_tracked nobs npred dim self
                (labels dataset_train) (features dataset_train)
                (labels dataset_val) (features dataset_val)
                lin_model bar (device self)) as I.
  destruct (error_tracker [nobs; npred; dim] (device self)) as [mw me].
  cbn [fst snd] in T, I.
  destruct (val_loop_tracked nobs npred dim self
              (labels dataset_train) (features dataset_train)
              (labels dataset_val) (features dataset_val)
              lin_model (Z.to_nat (num_iter self)) (lin_model, bar, mw, me)
              Hrate Hunit Hlm Hfin)
    as (st' & E & _ & Htr).
  { split; assumption. }
  { exact I. }
  rewrite E. destruct st' as [[[lm' bar'] mw'] me'].
  exists (mkLinearModel mw'), (close bar'). split; [reflexivity|].
  unfold tracked, st_model, st_bar, st_weights, st_errors in Htr.
  cbn [fst snd] in Htr. cbv zeta in Htr.
  destruct Htr as (_ & Hsh & Htr). destruct (Hsh Hn) as [Sme Smw].
  cbn [weights]. split; [exact Smw|].
  intros o p Ho Hp.
  assert (Hi : in_range [nobs; npred] [o; p]) by (repeat constructor; assumption).
  destruct (Htr [o; p] Hi) as (best & FB & _ & Kw).
  exists best. split; [exact FB|].
  intros d Hd. specialize (Kw d Hd).
  rewrite Smw in Kw. rewrite bidx_id in Kw; [exact Kw|].
  repeat constructor; assumption.
Qed.

(** X2 ([pairwise_select]).  On tensors of the documented shapes whose
    entries are finite, the merged error is the smaller of the two errors:
    it is at most each of them and is the current one exactly where that is
    strictly smaller; the merged weights are the current weights there and
    the best weights elsewhere, so a tie keeps the earlier best.  A negative
    zero may come out as a positive one. *)
Theorem pairwise_select_minimum (s : list nat) (dim : nat)
    (curr_error min_error curr_weight min_weight : tensor float) :
  shape curr_error = s -> shape min_error = s ->
  shape curr_weight = s ++ [dim] -> shape min_weight = s ++ [dim] ->
  (forall i, in_range s i ->
     fvalid (elem curr_error i) = true /\ is_finite (elem curr_error i) = true /\
     fvalid (elem min_error i) = true /\ is_finite (elem min_error i) = true) ->
  (forall i, in_range (s ++ [dim]) i ->
     fvalid (elem curr_weight i) = true /\ is_finite (elem curr_weight i) = true /\
     fvalid (elem min_weight i) = true /\ is_finite (elem min_weight i) = true) ->
  exists min_weight' min_error',
    pairwise_select curr_error min_error curr_weight min_weight
    = Some (min_weight', min_error') /\
    shape min_error' = s /\ shape min_weight' = s ++ [dim] /\
    (forall i, in_range s i ->
       fle (elem min_error' i) (elem curr_error i) = true /\
       fle (elem min_error' i) (elem min_error i) = true /\
       keeps (if flt (elem curr_error i) (elem min_error i)
              then elem curr_error i else elem min_error i)
             (elem min_error' i)) /\
    (forall i, in_range (s ++ [dim]) i ->
       keeps (if flt (elem curr_error (removelast i)) (elem min_error (removelast i))
              then elem curr_weight i else elem min_weight i)
             (elem min_weight' i)).
Proof.
  intros Hce Hme Hcw Hmw Ve Vw.
  destruct (pairwise_select_elem [] s dim curr_error min_error curr_weight
              min_weight Hce Hme Hcw Hmw)
    as (mw' & me' & E & S1 & S2 & Ee & Ew).
  cbn [app length skipn] in *.
  exists mw', me'. split; [exact E|]. split; [exact S1|]. split; [exact S2|].
  split.
  - intros i Hi. destruct (Ve i Hi) as (Vc & Fc & Vm & Fm).
    pose proof (blend_selects _ _ (flt (elem curr_error i) (elem min_error i))
                  Vm Vc Fm Fc) as K.
    rewrite <- (Ee i Hi) in K.
    assert (Nc : is_nan (elem curr_error i) = false)
      by (destruct (elem curr_error i); simpl in *; congruence).
    assert (Nm : is_nan (elem min_error i) = false)
      by (destruct (elem min_error i); simpl in *; congruence).
    split; [|split; [|exact K]].
    + apply fle_iff. rewrite (keeps_nan _ _ K), (keeps_key _ _ K).
      destruct (flt (elem curr_error i) (elem min_error i)) eqn:L.
      * split; [exact Nc|]. split; [exact Nc|]. right. reflexivity.
      * apply flt_false_fle in L; [|exact Nc|exact Nm].
        apply fle_iff in L. exact L.
    + apply fle_iff. rewrite (keeps_nan _ _ K), (keeps_key _ _ K).
      destruct (flt (elem curr_error i) (elem min_error i)) eqn:L.
      * apply flt_fle in L. apply fle_iff in L. exact L.
      * split; [exact Nm|]. split; [exact Nm|]. right. reflexivity.
  - intros i Hi. destruct (Vw i Hi) as (Vc & Fc & Vm & Fm).
    rewrite (Ew i Hi). apply blend_selects; assumption.
Qed.

(** X3 ([PGDOptim], [grad_update]).  The bar displays, update after update,
    the number of gradients below the threshold of the model before that
    update, so the count it is left with describes the last model but one
    and not the returned weights; the total is untouched and the bar is
    closed.  The run without a validation set always returns with this bar,
    and so does every run with a validation set that returns. *)
Theorem PGDOptim_progress_trace (self : ReferenceClass) (lin_model : LinearModel)
    (dataset_train : Dataset) (bar : progress) :
  let n := Z.to_nat (num_iter self) in
  let count k :=
    converged (iterate self (labels dataset_train) (features dataset_train)
                 lin_model k)
              (labels dataset_train) (features dataset_train) in
  let bar_end :=
    mkProgress (bar_total bar)
               (match n with 0 => bar_n bar | S k => count k end)
               (rev (map count (seq 0 n)) ++ bar_shown bar)
               true in
  (exists model,
     PGDOptim self lin_model dataset_train None bar = Some (model, bar_end)) /\
  (forall dataset_val model bar',
     PGDOptim self lin_model dataset_train (Some dataset_val) bar
     = Some (model, bar') ->
     bar' = bar_end).
Proof.
  cbv zeta. split.
  - eexists. unfold PGDOptim, getall. rewrite train_loop_trace. reflexivity.
  - intros dv model bar' E. apply PGDOptim_bar in E. exact E.
Qed.

(** X4 ([forward], [grad_update]).  For observations of shape
    [[nobs; npred; dim]] and gradients of the shape of the weights, the bar
    that a returning call of [forward] leaves behind has the total
    [nobs * npred], is closed, has been refreshed [num_iter] times, and has
    never displayed a count above its total. *)
Theorem forward_bar_within_total (self : ReferenceClass)
    (observations : tensor float) (nobs npred dim : nat)
    (min_val : tensor float) (min_ids : tensor nat) (reduced : LinearModel)
    (bar : progress) :
  shape observations = [nobs; npred; dim] -> grad_shape nobs npred dim ->
  forward self observations = Some (min_val, min_ids, reduced, bar) ->
  bar_total bar = nobs * npred /\ bar_closed bar = true /\
  length (bar_shown bar) = Z.to_nat (num_iter self) /\
  bar_n bar <= bar_total bar /\
  Forall (fun c => c <= bar_total bar) (bar_shown bar).
Proof.
  intros Hobs Hg. unfold forward. rewrite Hobs.
  destruct (PGDOptim self (mkLinearModel observations) (dataset_train self)
              (dataset_val self) (tqdm (nobs * npred)))
    as [[selectors bar1]|] eqn:E; [|discriminate].
  apply PGDOptim_bar in E.
  destruct (getall (dataset_eval self)) as [labels_eval features_eval].
  destruct (torch_min_dim1 _) as [[mv mi]|]; [|discriminate].
  destruct (reduce selectors mi) as [r|]; [|discriminate].
  intro R. inversion R; subst. clear R.
  destruct (bar_after_le nobs npred dim self (labels (dataset_train self))
              (features (dataset_train self)) (mkLinearModel observations)
              (Z.to_nat (num_iter self)) (tqdm (nobs * npred)))
    as [Hn Hs]; [exact Hobs | exact Hg | cbn; lia | constructor |].
  unfold close. cbn [bar_total bar_closed bar_n bar_shown].
  split; [reflexivity|]. split; [reflexivity|]. split; [|split].
  - unfold bar_after. cbv zeta. cbn [bar_shown tqdm].
    rewrite length_app, length_rev, length_map, length_seq. cbn. lia.
  - exact Hn.
  - exact Hs.
Qed.

(** X5 ([PGDOptim], [error_tracker], [pairwise_select]).  With a single
    feature the squeezed best weights have lost the feature dimension: for
    weights of shape [[nobs; npred; 1]] with [nobs] and [npred] other than 1
    and different from each other, the first merge of a run with a
    validation set raises torch's broadcasting error, so the run returns
    nothing. *)
Theorem PGDOptim_one_feature_raises (self : ReferenceClass)
    (lin_model : LinearModel) (dataset_train dataset_val : Dataset)
    (bar : progress) (nobs npred : nat) :
  shape (weights lin_model) = [nobs; npred; 1] ->
  nobs <> 1 -> npred <> 1 -> nobs <> npred ->
  1 <= Z.to_nat (num_iter self) ->
  rate_shape nobs npred 1 ->
  PGDOptim self lin_model dataset_train (Some dataset_val) bar = None.
Proof.
  intros Hlm HO HP HOP Hn Hrate. unfold PGDOptim, getall, size. rewrite Hlm.
  unfold error_tracker. cbv zeta.
  destruct (Z.to_nat (num_iter self)) as [|n]; [lia|].
  cbn [val_loop]. unfold val_step.
  pose proof (grad_update_shape self lin_model (labels dataset_train)
                (features dataset_train) bar) as S1.
  destruct (grad_update self lin_model (labels dataset_train)
              (features dataset_train) bar) as [lm1 bar1].
  cbn [fst] in S1. rewrite Hlm in S1.
  assert (Hsq : filter (fun d => negb (d =? 1)) [nobs; npred] = [nobs; npred]).
  { cbn [filter]. apply Nat.eqb_neq in HO, HP. rewrite HO, HP. reflexivity. }
  assert (Hsq' : filter (fun d => negb (d =? 1)) [nobs; npred; 1] = [nobs; npred]).
  { cbn [filter] in Hsq |- *. rewrite Nat.eqb_refl. exact Hsq. }
  rewrite (pairwise_select_one_feature nobs npred);
    [reflexivity | exact HO | exact HP | exact HOP
     | apply Hrate; exact S1 | exact Hsq | exact Hsq'].
Qed.

(** X6 ([PGDOptim], [error_tracker], [pairwise_select]).  With a single
    predictor the squeezed best errors have lost the predictor dimension and
    broadcast against the current errors across observations: for weights
    of shape [[nobs; 1; dim]] with [nobs] and [dim] other than 1, a run with
    a validation set and at least one iteration returns weights of shape
    [[nobs; nobs; dim]]. *)
Theorem PGDOptim_one_predictor_shape (self : ReferenceClass)
    (lin_model : LinearModel) (dataset_train dataset_val : Dataset)
    (bar : progress) (nobs dim : nat) :
  shape (weights lin_model) = [nobs; 1; dim] ->
  nobs <> 1 -> dim <> 1 ->
  1 <= Z.to_nat (num_iter self) ->
  rate_shape nobs 1 dim ->
  exists model bar',
    PGDOptim self lin_model dataset_train (Some dataset_val) bar
    = Some (model, bar') /\
    shape (weights model) = [nobs; nobs; dim].
Proof.
  intros Hlm HO HD Hn Hrate. unfold PGDOptim, getall, size. rewrite Hlm.
  unfold error_tracker. cbv zeta.
  destruct (Z.to_nat (num_iter self)) as [|n]; [lia|].
  destruct (val_loop_one_predictor nobs dim n self
              (labels dataset_train) (features dataset_train)
              (labels dataset_val) (features dataset_val)
              (lin_model, bar, squeeze (full [nobs; 1; dim] fzero),
               squeeze (full (removelast [nobs; 1; dim]) fone))
              HO HD Hrate)
    as (st' & E & _ & _ & Sw).
  - exact Hlm.
  - unfold st_errors, squeeze, full. cbn [snd shape removelast filter].
    apply Nat.eqb_neq in HO. rewrite HO. reflexivity.
  - unfold st_weights, squeeze, full. cbn [fst snd shape filter].
    apply Nat.eqb_neq in HO, HD. rewrite HO, HD. reflexivity.
  - rewrite E. destruct st' as [[[lm' bar'] mw'] me'].
    exists (mkLinearModel mw'), (close bar'). split; [reflexivity | exact Sw].
Qed.

(** X7 ([forward], [PGDOptim]).  An instance without a validation set never
    looks at validation errors: for observations of shape
    [[nobs; npred; dim]] with at least one predictor, [forward] returns, its
    selectors are the weights after [num_iter] gradient updates, and for
    every observation it reports an index of a predictor, the evaluation
    error of the selector at that index, and the weights of that selector. *)
Theorem forward_without_validation (self : ReferenceClass)
    (observations : tensor float) (nobs npred dim : nat) :
  dataset_val self = None ->
  shape observations = [nobs; npred; dim] -> 0 < npred ->
  rate_shape nobs npred dim ->
  let selectors :=
    iterate self (labels (dataset_train self)) (features (dataset_train self))
      (mkLinearModel observations) (Z.to_nat (num_iter self)) in
  let errors :=
    conditional_one_rate selectors (features (dataset_eval self))
      (transpose (labels (dataset_eval self))) in
  exists min_val min_ids reduced bar,
    forward self observations = Some (min_val, min_ids, reduced, bar) /\
    shape min_val = [nobs] /\ shape min_ids = [nobs] /\
    shape (weights reduced) = [nobs; dim] /\
    forall o, o < nobs ->
      elem min_ids [o] < npred /\
      elem min_val [o] = elem errors [o; elem min_ids [o]] /\
      (forall p, p < npred -> flt (elem errors [o; p]) (elem min_val [o]) = false) /\
      (forall d, elem (weights reduced) [o; d]
                 = elem (weights selectors) [o; elem min_ids [o]; d]).
Proof.
  intros Hval Hobs HP Hrate. cbv zeta.
  set (selectors := iterate self (labels (dataset_train self))
                      (features (dataset_train self)) (mkLinearModel observations)
                      (Z.to_nat (num_iter self))).
  assert (Hsel : shape (weights selectors) = [nobs; npred; dim]).
  { unfold selectors. rewrite iterate_shape. exact Hobs. }
  unfold forward. rewrite Hobs, Hval. unfold PGDOptim, getall.
  rewrite train_loop_trace. fold selectors. unfold torch_min_dim1.
  rewrite (Hrate _ _ _ Hsel).
  replace (npred =? 0) with false by (symmetry; apply Nat.eqb_neq; lia).
  unfold reduce. rewrite Hsel.
  eexists. eexists. eexists. eexists. split; [reflexivity|].
  cbn [shape weights elem hd tl].
  split; [reflexivity|]. split; [reflexivity|]. split; [reflexivity|].
  intros o Ho.
  set (errors := conditional_one_rate selectors _ _).
  set (lane := lane1 errors npred o []).
  assert (Hlane : lane <> []).
  { intro C. apply (f_equal (@length float)) in C.
    unfold lane in C. rewrite lane1_length in C. simpl in C. lia. }
  destruct (lane_min_spec lane Hlane) as (K & E & Hlt & _).
  unfold lane in K, E, Hlt. rewrite lane1_length in K, Hlt.
  fold lane in K, E, Hlt.
  split; [exact K|]. split; [|split; [|reflexivity]].
  - rewrite <- E. unfold lane. rewrite lane1_nth by exact K. reflexivity.
  - intros p Hp. specialize (Hlt p Hp). unfold lane in Hlt at 1.
    rewrite lane1_nth in Hlt by exact Hp. exact Hlt.
Qed.

(** X8 ([forward]).  Without a predictor there is nothing to take the
    minimum of: for observations of shape [[nobs; 0; dim]] and an instance
    without a validation set, the gradient loop runs and [torch.min] then
    raises, so [forward] returns nothing. *)
Theorem forward_no_predictor_raises (self : ReferenceClass)
    (observations : tensor float) (nobs dim : nat) :
  dataset_val self = None ->
  shape observations = [nobs; 0; dim] -> rate_shape nobs 0 dim ->
  forward self observations = None.
Proof.
  intros Hval Hobs Hrate.
  unfold forward. rewrite Hobs, Hval. unfold PGDOptim, getall.
  rewrite train_loop_trace. unfold torch_min_dim1.
  rewrite (Hrate _ _ _); [reflexivity|].
  rewrite iterate_shape. exact Hobs.
Qed.

(** X9 ([__init__]).  A fraction that is NaN passes the check of the sum,
    since [nan > 1] is false, and fails in [int()]: [__init__] raises the
    [ValueError] of [int(nan)], or the [OverflowError] of an infinite
    product before it, after the two prints and before any split. *)
Theorem init_nan_fraction_raises (prev_header : string) (dataset : Dataset)
    (subset_fracs : list float) (num_iter : Z) (lr : float) (device : string) :
  In S754_nan subset_fracs ->
  exists e,
    init prev_header dataset subset_fracs num_iter lr device
    = ([Print_feature_size (len dataset) (dim_feature dataset);
        Print_label_size (len dataset) (dim_label dataset)], inl e) /\
    (e = ValueError "cannot convert float NaN to integer" \/ e = OverflowError).
Proof.
  intro H. unfold init. rewrite (py_sum_nan _ H).
  replace (flt (py_float 1) S754_nan) with false by reflexivity.
  destruct (subset_sizes_nan (Z.of_nat (len dataset)) subset_fracs H)
    as (e & -> & He).
  exists e. split; [reflexivity | exact He].
Qed.

(** X10 ([pairwise_select]).  An error that is NaN, the current or the best
    one, is never below and never above another: the merged error of that
    entry is NaN, so it stays NaN in every later merge, and the best weights
    of the entry are kept (finite weights, up to the sign of a zero)
    whatever the current error is. *)
Theorem pairwise_select_nan_freezes (s : list nat) (dim : nat)
    (curr_error min_error curr_weight min_weight : tensor float) :
  shape curr_error = s -> shape min_error = s ->
  shape curr_weight = s ++ [dim] -> shape min_weight = s ++ [dim] ->
  exists min_weight' min_error',
    pairwise_select curr_error min_error curr_weight min_weight
    = Some (min_weight', min_error') /\
    forall i, in_range s i ->
      is_nan (elem curr_error i) = true \/ is_nan (elem min_error i) = true ->
      elem min_error' i = S754_nan /\
      forall d, d < dim ->
        fvalid (elem min_weight (i ++ [d])) = true ->
        is_finite (elem curr_weight (i ++ [d])) = true ->
        keeps (elem min_weight (i ++ [d])) (elem min_weight' (i ++ [d])).
Proof.
  intros Hce Hme Hcw Hmw.
  destruct (pairwise_select_elem [] s dim curr_error min_error curr_weight
              min_weight Hce Hme Hcw Hmw)
    as (mw' & me' & E & _ & _ & Ee & Ew).
  cbn [app length skipn] in *.
  exists mw', me'. split; [exact E|].
  intros i Hi Hnan.
  assert (L : flt (elem curr_error i) (elem min_error i) = false).
  { destruct Hnan as [N|N].
    - destruct (elem curr_error i); try discriminate. reflexivity.
    - apply flt_nan_r, N. }
  split.
  - rewrite (Ee i Hi), L. unfold blend, mul_mask, of_bool, fmul, fadd.
    cbn [negb].
    destruct Hnan as [N|N].
    + destruct (elem curr_error i); try discriminate.
      cbn [SFmul fzero]. destruct (SFmul prec emax _ _); reflexivity.
    + destruct (elem min_error i); try discriminate. reflexivity.
  - intros d Hd V F.
    pose proof (in_range_snoc _ dim i d Hi Hd) as Hid.
    rewrite (Ew _ Hid), removelast_last, L. unfold blend. cbn [negb].
    apply blend_keeps_left; assumption.
Qed.

(** X11 ([grad_update]).  A gradient that is zero leaves the weights as
    they are, whatever the learning rate, as long as the rate is finite in
    the tensors' format: every weight, an infinity or a NaN too, is kept,
    up to the sign of a zero. *)
Theorem grad_update_zero_gradient (self : ReferenceClass) (lin_model : LinearModel)
    (labels features : tensor float) (bar : progress) :
  is_finite (cast (SFopp (lr self))) = true ->
  (forall i, in_range (shape (weights lin_model)) i ->
     exists s, elem (proj_grad lin_model features (transpose labels)) i
               = S754_zero s) ->
  shape (weights (fst (grad_update self lin_model labels features bar)))
  = shape (weights lin_model) /\
  forall i, in_range (shape (weights lin_model)) i ->
    keeps (elem (weights lin_model) i)
          (elem (weights (fst (grad_update self lin_model labels features bar))) i).
Proof.
  intros Hlr Hz. split; [apply grad_update_shape|].
  intros i Hi. destruct (Hz i Hi) as [s Es].
  unfold grad_update, update, tmap. cbn [fst weights elem]. rewrite Es.
  unfold fmul, fadd.
  destruct (cast (SFopp (lr self))) as [s1| | |s1 m1 e1]; try discriminate;
    cbn [SFmul];
    (destruct (elem (weights lin_model) i) as [[]|[]| |[]];
     destruct (xorb s1 s); cbn [SFadd Bool.eqb];
     first [left; reflexivity | right; split; reflexivity]).
Qed.

(** X12 ([PGDOptim], [pairwise_select]).  For validation error rates that
    lie in [0, 1] and weights of shape [[nobs; npred; dim]] with [npred] and
    [dim] other than 1, the loop with a validation set reaches every
    iteration, and for every observation and predictor the error that the
    merge of iteration [k + 1] returns is at most the error passed to it
    (read through broadcasting at the first merge, whose input is the
    squeezed tensor of ones). *)
Theorem best_error_nonincreasing (self : ReferenceClass) (lin_model : LinearModel)
    (labels_train features_train labels_val features_val : tensor float)
    (bar : progress) (nobs npred dim k : nat) :
  shape (weights lin_model) = [nobs; npred; dim] -> npred <> 1 -> dim <> 1 ->
  rate_shape nobs npred dim -> rate_unit nobs npred dim ->
  exists st st',
    val_loop k self labels_train features_train labels_val features_val
      (lin_model, bar, fst (error_tracker (size lin_model) (device self)),
       snd (error_tracker (size lin_model) (device self))) = Some st /\
    val_loop (S k) self labels_train features_train labels_val features_val
      (lin_model, bar, fst (error_tracker (size lin_model) (device self)),
       snd (error_tracker (size lin_model) (device self))) = Some st' /\
    val_step self labels_train features_train labels_val features_val st = Some st' /\
    (forall i, in_range [nobs; npred] i ->
       fle (elem (st_errors st') i)
           (elem (st_errors st) (bidx (shape (st_errors st)) i)) = true).
Proof.
  intros Hlm HP HD Hrate Hunit. unfold size. rewrite Hlm.
  set (init := (lin_model, bar, fst (error_tracker [nobs; npred; dim] (device self)),
                snd (error_tracker [nobs; npred; dim] (device self)))).
  assert (Hinit : shape_inv nobs npred dim init).
  { split; [exact Hlm | apply error_tracker_shapes; assumption]. }
  assert (Finit : errors_finite init).
  { intros j _. apply error_tracker_finite. }
  destruct (val_loop_errors nobs npred dim k self labels_train features_train
              labels_val features_val init Hrate Hunit Hinit Finit)
    as (st & E & Hst & Fst).
  destruct (val_step_errors nobs npred dim self labels_train features_train
              labels_val features_val st Hrate Hunit Hst Fst)
    as (st' & E' & _ & _ & _ & Hle).
  exists st, st'. split; [exact E|]. split.
  - rewrite val_loop_snoc, E. exact E'.
  - split; [exact E' | exact Hle].
Qed.

(** X13 ([__init__]).  For one or two fractions in (0, 1] whose sum is not
    above 1 and a dataset of fewer than [2 ^ 53] samples, every size
    [int(len(dataset) * frac)] lies between 0 and [len(dataset)]: the float
    product is not rounded beyond the length.  With a single fraction the
    size left for the evaluation subset is therefore not negative, and
    every length handed to [random_split] is a valid one. *)
Theorem init_split_within_dataset (prev_header : string) (dataset : Dataset)
    (subset_fracs : list float) (num_iter : Z) (lr : float) (device : string) :
  Forall unit_fraction subset_fracs ->
  (Z.of_nat (len dataset) < 2 ^ 53)%Z ->
  flt (py_float 1) (py_sum subset_fracs) = false ->
  length subset_fracs = 1 \/ length subset_fracs = 2 ->
  exists sizes,
    fst (init prev_header dataset subset_fracs num_iter lr device)
    = [Print_feature_size (len dataset) (dim_feature dataset);
       Print_label_size (len dataset) (dim_label dataset);
       Random_split (sizes ++ [(Z.of_nat (len dataset) - Zsum sizes)%Z])] /\
    length sizes = length subset_fracs /\
    Forall (fun k => (0 <= k <= Z.of_nat (len dataset))%Z) sizes /\
    (length subset_fracs = 1 ->
     (0 <= Z.of_nat (len dataset) - Zsum sizes <= Z.of_nat (len dataset))%Z).
Proof.
  intros Hf Hn Hsum Hlen.
  destruct (subset_sizes_bounded (Z.of_nat (len dataset)) subset_fracs)
    as (sizes & Es & Ls & Fs); [lia | exact Hf|].
  exists sizes. unfold init. rewrite Hsum, Es.
  split; [|split; [exact Ls|split; [exact Fs|]]].
  - destruct sizes as [|k1 [|k2 [|k3 sizes]]]; cbn [length] in Ls;
      try (exfalso; lia); reflexivity.
  - intro L1. rewrite L1 in Ls.
    destruct sizes as [|k1 [|k2 sizes]]; cbn [length] in Ls; try (exfalso; lia).
    inversion Fs as [|? ? Hk _]; subst. unfold Zsum. cbn [fold_left]. lia.
Qed.

End Program.

(** ** The constants of the model, evaluated *)

(** The threshold [0.025] as a [float32]. *)
Example threshold_float32 :
  cast 24 128 py_0_025 = S754_finite false 13421773 (-29).
Proof. vm_compute. reflexivity. Qed.

Example fone_float32 : fone 24 128 = f32_one.
Proof. vm_compute. reflexivity. Qed.

(** The sizes of the scenario of the spec: 60 and 20 of 100 samples. *)
Example sample_subset_sizes :
  subset_sizes_of 100 [py_0_6; py_0_2] = inr [60; 20]%Z.
Proof. vm_compute. reflexivity. Qed.

(** The product is rounded before [int] truncates it: [3 * (1 / 3)] is
    [1.0] in binary64. *)
Example one_third_of_three :
  py_int (py_mul (py_float 3) (SFdiv 53 1024 (py_float 1) (py_float 3))) = inr 1%Z.
Proof. vm_compute. reflexivity. Qed.

(** ** The model on small inputs *)

Example broadcast_shapes_examples :
  broadcast_shapes [2; 1] [3] = Some [2; 3] /\
  broadcast_shapes [4; 1; 3] [2; 1] = Some [4; 2; 3] /\
  broadcast_shapes [2; 3] [2; 3; 1] = None.
Proof. repeat split. Qed.

Example squeeze_example : shape (squeeze (full [1; 2; 1; 3] fzero)) = [2; 3].
Proof. reflexivity. Qed.

(** The first of two equal minima, and the first NaN. *)
Example lane_min_examples :
  lane_min [f32_half; f32_quarter; f32_quarter] = (f32_quarter, 1) /\
  lane_min [f32_half; S754_nan; f32_quarter] = (S754_nan, 1).
Proof. split; reflexivity. Qed.

(** On finite entries the merge replaces where the current error is
    strictly below the best one, and keeps the best one at a tie. *)
Example pairwise_select_example :
  exists mw' me',
    pairwise_select 24 128
      (tensor2 2 [[f32_quarter; f32_half]]) (tensor2 2 [[f32_half; f32_half]])
      (full [1; 2; 3] f32_two) (full [1; 2; 3] f32_one) = Some (mw', me') /\
    shape me' = [1; 2] /\ shape mw' = [1; 2; 3] /\
    elem me' [0; 0] = f32_quarter /\ elem me' [0; 1] = f32_half /\
    elem mw' [0; 0; 2] = f32_two /\ elem mw' [0; 1; 2] = f32_one.
Proof.
  eexists. eexists. split; [reflexivity|].
  repeat split; vm_compute; reflexivity.
Qed.

(** ** The claims on the sample inputs *)

Lemma sample_rate_shape : rate_shape sample_rate 2 3 4.
Proof. intros m X y _. reflexivity. Defined.

Lemma sample_rate_unit : rate_unit 24 128 sample_rate 2 3 4.
Proof.
  intros m X y i _ Hi. unfold in_range in Hi.
  inversion Hi as [|o ? i1 ? Ho Hi1]; subst.
  inversion Hi1 as [|p ? i2 ? Hp Hi2]; subst. inversion Hi2; subst.
  destruct o as [|[|o]]; [| |lia];
    (destruct p as [|[|[|p]]]; [| | |lia]); vm_compute; auto.
Defined.

Lemma sample_fractions : Forall unit_fraction [py_0_6; py_0_2].
Proof. repeat constructor; vm_compute; reflexivity. Defined.

Lemma sample_split_contract : split_contract sample_split.
Proof. intros d lengths. apply length_map. Defined.


(** C4 on the sample: the fractions [0.6] and [0.2] raise no error. *)
Lemma init_raises_iff_witness :
  ~ config_error "test"
      (snd (init sample_split "test" (sample_dataset 100) [py_0_6; py_0_2]
              10 py_0_01 "cpu")).
Proof.
  destruct (init_raises_iff sample_split "test" (sample_dataset 100)
              [py_0_6; py_0_2] 10%Z py_0_01 "cpu") as [[H _] _].
  - exact sample_fractions.
  - vm_compute. reflexivity.
  - intro C. destruct (H C) as [S | [_ L]].
    + vm_compute in S. discriminate.
    + apply L. reflexivity.
Defined.

(** C5 on the sample: 100 samples are split into 60, 20 and 20. *)
Lemma init_split_sizes_witness :
  exists self,
    init sample_split "test" (sample_dataset 100) [py_0_6; py_0_2] 10 py_0_01 "cpu"
    = ([Print_feature_size 100 4; Print_label_size 100 3;
        Random_split [60; 20; 20]%Z], inr self) /\
    exists val, dataset_val self = Some val.
Proof.
  destruct (init_split_sizes sample_split "test" (sample_dataset 100)
              [py_0_6; py_0_2] 10%Z py_0_01 "cpu")
    as (sizes & self & F & _ & E & _ & V).
  - exact sample_fractions.
  - vm_compute. reflexivity.
  - vm_compute. reflexivity.
  - right. reflexivity.
  - exact sample_split_contract.
  - exists self. destruct (V eq_refl) as (val & Hv & _).
    split; [|exists val; exact Hv].
    assert (Hs : sizes = [60; 20]%Z).
    { inversion F as [|f1 k1 l1 l1' [H1 _] F1]; subst.
      inversion F1 as [|f2 k2 l2 l2' [H2 _] F2]; subst.
      inversion F2; subst. vm_compute in H1, H2. congruence. }
    rewrite E, Hs. reflexivity.
Defined.

(** C8 on the sample. *)
Lemma grad_update_step_witness :
  bar_n (snd (grad_update 24 128 sample_proj_grad sample_norm (sample_self None)
                (mkLinearModel sample_observations)
                (labels (sample_dataset 60)) (features (sample_dataset 60))
                (tqdm 6)))
  = length (filter
              (fun op =>
                 flt (sample_norm
                        (map (fun d =>
                                elem (sample_proj_grad
                                        (mkLinearModel sample_observations)
                                        (features (sample_dataset 60))
                                        (transpose (labels (sample_dataset 60))))
                                     [fst op; snd op; d])
                             (seq 0 4)))
                     (cast 24 128 py_0_025))
              (list_prod (seq 0 2) (seq 0 3))).
Proof.
  apply (grad_update_step 24 128 sample_proj_grad sample_norm (sample_self None)
           (mkLinearModel sample_observations)
           (labels (sample_dataset 60)) (features (sample_dataset 60))
           (tqdm 6) 2 3 4).
  reflexivity.
Defined.


(** ** Where the code departs from the claims *)

(** C7, as stated, fails for a leading dimension of size 1: for the weight
    shape [[1; 2; 3]] the tracked weights have the shape [[2; 3]], not
    [[1; 2; 3]], and the tracked errors the shape [[2]], not [[1; 2]]. *)
Lemma error_tracker_squeezes_leading :
  shape (fst (error_tracker 24 128 [1; 2; 3] "cpu")) = [2; 3] /\
  strip_trailing_ones [1; 2; 3] = [1; 2; 3] /\
  shape (snd (error_tracker 24 128 [1; 2; 3] "cpu")) = [2] /\
  removelast [1; 2; 3] = [1; 2] /\
  ~ (shape (fst (error_tracker 24 128 [1; 2; 3] "cpu"))
     = strip_trailing_ones [1; 2; 3] /\
     shape (snd (error_tracker 24 128 [1; 2; 3] "cpu"))
     = removelast [1; 2; 3]).
Proof.
  repeat split; try reflexivity. intros [C _]. discriminate C.
Qed.

(** The merge raises a shape error in the first iteration of a run on
    weights with one feature: [squeeze] has removed the feature dimension
    of the tracked weights. *)
Example merge_raises_for_one_feature :
  pairwise_select 24 128 (full [2; 3] f32_half)
    (snd (error_tracker 24 128 [2; 3; 1] "cpu"))
    (full [2; 3; 1] f32_half)
    (fst (error_tracker 24 128 [2; 3; 1] "cpu")) = None.
Proof. reflexivity. Qed.

(** C2. [pairwise_select] blends: an infinite current weight that the mask
    does not select turns the kept weight [1.0] into NaN, and a NaN current
    error turns the kept error [0.25] into NaN, where the merge by [where]
    keeps both. *)
Theorem pairwise_select_blends_nonfinite :
  exists mw' me' w e,
    pairwise_select 24 128 poisoned_curr_error poisoned_min_error
      poisoned_curr_weight poisoned_min_weight = Some (mw', me') /\
    pairwise_select_where poisoned_curr_error poisoned_min_error
      poisoned_curr_weight poisoned_min_weight = Some (w, e) /\
    elem mw' [0; 0; 0] = S754_nan /\ elem w [0; 0; 0] = f32_one /\
    elem me' [1; 1] = S754_nan /\ elem e [1; 1] = f32_quarter.
Proof.
  eexists. eexists. eexists. eexists.
  split; [reflexivity|]. split; [reflexivity|].
  repeat split; vm_compute; reflexivity.
Qed.

(** C10. With a validation error of [1.0] throughout, finite weights at
    the largest [float32] and a finite gradient, the live weights overflow
    in the first update, and the model that [PGDOptim] returns holds NaN,
    not the zeros of the tracker. *)
Theorem PGDOptim_overflow_returns_nan :
  (forall m X y i, fle (fone 24 128) (elem (unit_rate m X y) i) = true) /\
  is_finite f32_max = true /\
  exists model bar,
    PGDOptim 24 128 overflow_proj_grad unit_rate sample_norm overflow_self
      (mkLinearModel overflow_observations) (dataset_train overflow_self)
      (dataset_val overflow_self) (tqdm 6) = Some (model, bar) /\
    shape (weights model) = [2; 3; 4] /\
    forall i, elem (weights model) i = S754_nan.
Proof.
  split; [intros; reflexivity|]. split; [reflexivity|].
  eexists. eexists. split; [reflexivity|]. split; [reflexivity|].
  intro i. vm_compute. reflexivity.
Qed.

(** ** The loop and the counter of the bar *)

Section Norms.

Variables prec emax : Z.
Variables proj_grad conditional_one_rate
  : LinearModel -> tensor float -> tensor float -> tensor float.
Variables norm2 norm2' : list float -> float.




End Norms.




(** ** The best error next to an error that is not a number *)

(** C3.  The best error of an entry is lost when the current validation
    error of the entry is not a number: from the tracker of
    [error_tracker], whose errors are [1.0], the first merge of a run
    returns NaN at the entry [[1; 2]], which is not at most the [1.0]
    passed in, where a selection keeps the [1.0]. *)
Theorem best_error_lost_to_nan :
  let self := sample_self (Some (sample_dataset 20)) in
  let live :=
    iterate 24 128 sample_proj_grad sample_norm self
      (labels (sample_dataset 60)) (features (sample_dataset 60))
      (mkLinearModel sample_observations) 1 in
  let curr_error :=
    nan_rate live (features (sample_dataset 20))
      (transpose (labels (sample_dataset 20))) in
  let min_weight := fst (error_tracker 24 128 [2; 3; 4] "cpu") in
  let min_error := snd (error_tracker 24 128 [2; 3; 4] "cpu") in
  exists st' w e,
    val_loop 24 128 sample_proj_grad nan_rate sample_norm 1 self
      (labels (sample_dataset 60)) (features (sample_dataset 60))
      (labels (sample_dataset 20)) (features (sample_dataset 20))
      (mkLinearModel sample_observations, tqdm 6, min_weight, min_error)
    = Some st' /\
    pairwise_select 24 128 curr_error min_error (weights live) min_weight
    = Some (st_weights st', st_errors st') /\
    elem curr_error [1; 2] = S754_nan /\
    elem min_error [1; 2] = f32_one /\
    elem (st_errors st') [1; 2] = S754_nan /\
    fle (elem (st_errors st') [1; 2]) (elem min_error [1; 2]) = false /\
    pairwise_select_where curr_error min_error (weights live) min_weight
    = Some (w, e) /\
    elem e [1; 2] = f32_one.
Proof.
  cbv zeta. eexists. eexists. eexists.
  split; [reflexivity|]. split; [reflexivity|].
  split; [reflexivity|]. split; [vm_compute; reflexivity|].
  split; [vm_compute; reflexivity|]. split; [vm_compute; reflexivity|].
  split; [reflexivity|]. vm_compute. reflexivity.
Qed.

(** ** The further properties on the sample inputs *)

Lemma sample_grad_shape : grad_shape sample_proj_grad 2 3 4.
Proof. intros m X y H. exact H. Defined.

Lemma sample_weights_finite (k : nat) :
  1 <= k <= 2 ->
  weights_finite 24 128
    (iterate 24 128 sample_proj_grad sample_norm
       (sample_self (Some (sample_dataset 20)))
       (labels (sample_dataset 60)) (features (sample_dataset 60))
       (mkLinearModel sample_observations) k).
Proof.
  intros Hk i _. destruct k as [|[|[|k]]]; try lia;
    split; vm_compute; reflexivity.
Defined.

(** X1 on the sample: two iterations with a validation set. *)
Lemma PGDOptim_returns_first_best_witness :
  exists model bar',
    PGDOptim 24 128 sample_proj_grad sample_rate sample_norm
      (sample_self (Some (sample_dataset 20)))
      (mkLinearModel sample_observations) (sample_dataset 60)
      (Some (sample_dataset 20)) (tqdm 6) = Some (model, bar') /\
    shape (weights model) = [2; 3; 4].
Proof.
  destruct (PGDOptim_returns_first_best 24 128 sample_proj_grad sample_rate
              sample_norm ltac:(lia) ltac:(lia)
              (sample_self (Some (sample_dataset 20)))
              (mkLinearModel sample_observations) (sample_dataset 60)
              (sample_dataset 20) (tqdm 6) 2 3 4)
    as (model & bar' & E & S & _).
  - reflexivity.
  - discriminate.
  - discriminate.
  - cbn. lia.
  - exact sample_rate_shape.
  - exact sample_rate_unit.
  - exact sample_weights_finite.
  - exists model, bar'. split; [exact E | exact S].
Defined.

(** X2 on the tensors of the example of the merge. *)
Lemma pairwise_select_minimum_witness :
  exists min_weight' min_error',
    pairwise_select 24 128
      (tensor2 2 [[f32_quarter; f32_half]]) (tensor2 2 [[f32_half; f32_half]])
      (full [1; 2; 3] f32_two) (full [1; 2; 3] f32_one)
    = Some (min_weight', min_error') /\
    shape min_error' = [1; 2] /\ shape min_weight' = [1; 2; 3].
Proof.
  destruct (pairwise_select_minimum 24 128 ltac:(lia) ltac:(lia) [1; 2] 3
              (tensor2 2 [[f32_quarter; f32_half]])
              (tensor2 2 [[f32_half; f32_half]])
              (full [1; 2; 3] f32_two) (full [1; 2; 3] f32_one))
    as (mw' & me' & E & S1 & S2 & _).
  - reflexivity.
  - reflexivity.
  - reflexivity.
  - reflexivity.
  - intros i Hi. unfold in_range in Hi.
    inversion Hi as [|o ? i1 ? Ho Hi1]; subst.
    inversion Hi1 as [|p ? i2 ? Hp Hi2]; subst. inversion Hi2; subst.
    destruct o as [|o]; [|lia].
    destruct p as [|[|p]]; [| |lia]; vm_compute; auto.
  - intros i _. vm_compute. auto.
  - exists mw', me'. split; [exact E|]. split; [exact S1 | exact S2].
Defined.

(** X3 on the sample: the two refreshes of a run with a validation set. *)
Lemma PGDOptim_progress_trace_witness :
  exists model bar',
    PGDOptim 24 128 sample_proj_grad sample_rate sample_norm
      (sample_self (Some (sample_dataset 20)))
      (mkLinearModel sample_observations) (sample_dataset 60)
      (Some (sample_dataset 20)) (tqdm 6) = Some (model, bar') /\
    bar_total bar' = 6 /\ length (bar_shown bar') = 2 /\ bar_closed bar' = true.
Proof.
  destruct (PGDOptim_progress_trace 24 128 sample_proj_grad sample_rate sample_norm
              (sample_self (Some (sample_dataset 20)))
              (mkLinearModel sample_observations) (sample_dataset 60) (tqdm 6))
    as [_ H].
  destruct (PGDOptim_returns 24 128 sample_proj_grad sample_rate sample_norm
              (sample_self (Some (sample_dataset 20)))
              (mkLinearModel sample_observations) (sample_dataset 60)
              (sample_dataset 20) (tqdm 6) 2 3 4)
    as (model & bar' & E).
  - reflexivity.
  - discriminate.
  - discriminate.
  - exact sample_rate_shape.
  - exists model, bar'. split; [exact E|].
    rewrite (H (sample_dataset 20) model bar' E).
    split; [reflexivity|]. split; reflexivity.
Defined.

(** X4 on the sample: the bar of a call without a validation set. *)
Lemma forward_bar_within_total_witness :
  exists min_val min_ids reduced bar,
    forward 24 128 sample_proj_grad sample_rate sample_norm
      (sample_self None) sample_observations
    = Some (min_val, min_ids, reduced, bar) /\
    bar_total bar = 6 /\ bar_n bar <= bar_total bar.
Proof.
  eexists. eexists. eexists. eexists.
  split; [reflexivity|].
  destruct (forward_bar_within_total 24 128 sample_proj_grad sample_rate
              sample_norm (sample_self None) sample_observations 2 3 4
              _ _ _ _ eq_refl sample_grad_shape eq_refl)
    as (T & _ & _ & N & _).
  split; [exact T | exact N].
Defined.

Lemma one_feature_rate_shape : rate_shape sample_rate 2 3 1.
Proof. intros m X y _. reflexivity. Defined.

(** X5 on weights of shape [[2; 3; 1]]. *)
Lemma PGDOptim_one_feature_raises_witness :
  PGDOptim 24 128 sample_proj_grad sample_rate sample_norm one_feature_self
    (mkLinearModel one_feature_observations) (one_feature_dataset 60)
    (Some (one_feature_dataset 20)) (tqdm 6) = None.
Proof.
  apply (PGDOptim_one_feature_raises 24 128 sample_proj_grad sample_rate
           sample_norm one_feature_self (mkLinearModel one_feature_observations)
           (one_feature_dataset 60) (one_feature_dataset 20) (tqdm 6) 2 3).
  - reflexivity.
  - discriminate.
  - discriminate.
  - discriminate.
  - cbn. lia.
  - exact one_feature_rate_shape.
Defined.

Lemma one_predictor_rate_shape : rate_shape one_predictor_rate 2 1 4.
Proof. intros m X y _. reflexivity. Defined.

(** X6 on weights of shape [[2; 1; 4]]. *)
Lemma PGDOptim_one_predictor_shape_witness :
  exists model bar',
    PGDOptim 24 128 sample_proj_grad one_predictor_rate sample_norm
      (sample_self (Some (sample_dataset 20)))
      (mkLinearModel one_predictor_observations) (sample_dataset 60)
      (Some (sample_dataset 20)) (tqdm 2) = Some (model, bar') /\
    shape (weights model) = [2; 2; 4].
Proof.
  apply (PGDOptim_one_predictor_shape 24 128 sample_proj_grad one_predictor_rate
           sample_norm (sample_self (Some (sample_dataset 20)))
           (mkLinearModel one_predictor_observations) (sample_dataset 60)
           (sample_dataset 20) (tqdm 2) 2 4).
  - reflexivity.
  - discriminate.
  - discriminate.
  - cbn. lia.
  - exact one_predictor_rate_shape.
Defined.

(** X7 on the sample. *)
Lemma forward_without_validation_witness :
  exists min_val min_ids reduced bar,
    forward 24 128 sample_proj_grad sample_rate sample_norm
      (sample_self None) sample_observations
    = Some (min_val, min_ids, reduced, bar) /\
    shape min_val = [2] /\ shape min_ids = [2] /\
    shape (weights reduced) = [2; 4].
Proof.
  destruct (forward_without_validation 24 128 sample_proj_grad sample_rate
              sample_norm (sample_self None) sample_observations 2 3 4)
    as (mv & mi & red & bar & E & S1 & S2 & S3 & _).
  - reflexivity.
  - reflexivity.
  - lia.
  - exact sample_rate_shape.
  - exists mv, mi, red, bar. repeat split; assumption.
Defined.

Lemma no_predictor_rate_shape : rate_shape no_predictor_rate 2 0 4.
Proof. intros m X y _. reflexivity. Defined.

(** X8 on observations of shape [[2; 0; 4]]. *)
Lemma forward_no_predictor_raises_witness :
  forward 24 128 sample_proj_grad no_predictor_rate sample_norm
    (sample_self None) no_predictor_observations = None.
Proof.
  apply (forward_no_predictor_raises 24 128 sample_proj_grad no_predictor_rate
           sample_norm (sample_self None) no_predictor_observations 2 4).
  - reflexivity.
  - reflexivity.
  - exact no_predictor_rate_shape.
Defined.

(** X9 on the fractions [0.6] and NaN. *)
Lemma init_nan_fraction_raises_witness :
  exists e,
    init sample_split "test" (sample_dataset 100) [py_0_6; S754_nan]
      10 py_0_01 "cpu"
    = ([Print_feature_size 100 4; Print_label_size 100 3], inl e).
Proof.
  destruct (init_nan_fraction_raises sample_split "test" (sample_dataset 100)
              [py_0_6; S754_nan] 10%Z py_0_01 "cpu")
    as (e & E & _).
  - right. left. reflexivity.
  - exists e. exact E.
Defined.

(** X10 on the tensors with a NaN current error. *)
Lemma pairwise_select_nan_freezes_witness :
  exists min_weight' min_error',
    pairwise_select 24 128 poisoned_curr_error poisoned_min_error
      poisoned_curr_weight poisoned_min_weight
    = Some (min_weight', min_error') /\
    elem min_error' [1; 1] = S754_nan.
Proof.
  destruct (pairwise_select_nan_freezes 24 128 ltac:(lia) ltac:(lia) [2; 2] 2
              poisoned_curr_error poisoned_min_error
              poisoned_curr_weight poisoned_min_weight
              eq_refl eq_refl eq_refl eq_refl)
    as (mw' & me' & E & H).
  exists mw', me'. split; [exact E|].
  apply (H [1; 1]).
  - repeat constructor.
  - left. reflexivity.
Defined.

(** X11 on the sample, with a gradient that is zero. *)
Lemma grad_update_zero_gradient_witness :
  shape (weights (fst (grad_update 24 128 zero_proj_grad sample_norm
                         (sample_self None) (mkLinearModel sample_observations)
                         (labels (sample_dataset 60))
                         (features (sample_dataset 60)) (tqdm 6))))
  = [2; 3; 4].
Proof.
  apply (grad_update_zero_gradient 24 128 zero_proj_grad sample_norm
           (sample_self None) (mkLinearModel sample_observations)
           (labels (sample_dataset 60)) (features (sample_dataset 60)) (tqdm 6)).
  - vm_compute. reflexivity.
  - intros i _. exists false. reflexivity.
Defined.

(** X12 on the sample: the first and the second merge of a run. *)
Lemma best_error_nonincreasing_witness :
  exists st st',
    val_loop 24 128 sample_proj_grad sample_rate sample_norm 1
      (sample_self (Some (sample_dataset 20)))
      (labels (sample_dataset 60)) (features (sample_dataset 60))
      (labels (sample_dataset 20)) (features (sample_dataset 20))
      (mkLinearModel sample_observations, tqdm 6,
       fst (error_tracker 24 128 [2; 3; 4] "cpu"),
       snd (error_tracker 24 128 [2; 3; 4] "cpu"))
    = Some st /\
    val_step 24 128 sample_proj_grad sample_rate sample_norm
      (sample_self (Some (sample_dataset 20)))
      (labels (sample_dataset 60)) (features (sample_dataset 60))
      (labels (sample_dataset 20)) (features (sample_dataset 20)) st = Some st' /\
    (forall i, in_range [2; 3] i ->
       fle (elem (st_errors st') i)
           (elem (st_errors st) (bidx (shape (st_errors st)) i)) = true).
Proof.
  destruct (best_error_nonincreasing 24 128 sample_proj_grad sample_rate sample_norm
              ltac:(lia) ltac:(lia)
              (sample_self (Some (sample_dataset 20)))
              (mkLinearModel sample_observations)
              (labels (sample_dataset 60)) (features (sample_dataset 60))
              (labels (sample_dataset 20)) (features (sample_dataset 20))
              (tqdm 6) 2 3 4 1)
    as (st & st' & E & _ & E' & H).
  - reflexivity.
  - discriminate.
  - discriminate.
  - exact sample_rate_shape.
  - exact sample_rate_unit.
  - exists st, st'. split; [exact E|]. split; [exact E' | exact H].
Defined.

(** X13 on the sample: 60 and 20 of 100 samples. *)
Lemma init_split_within_dataset_witness :
  exists sizes,
    fst (init sample_split "test" (sample_dataset 100) [py_0_6; py_0_2]
           10 py_0_01 "cpu")
    = [Print_feature_size 100 4; Print_label_size 100 3;
       Random_split (sizes ++ [(100 - Zsum sizes)%Z])] /\
    Forall (fun k => (0 <= k <= 100)%Z) sizes.
Proof.
  destruct (init_split_within_dataset sample_split "test" (sample_dataset 100)
              [py_0_6; py_0_2] 10%Z py_0_01 "cpu")
    as (sizes & E & _ & F & _).
  - exact sample_fractions.
  - vm_compute. reflexivity.
  - vm_compute. reflexivity.
  - right. reflexivity.
  - exists sizes. split; [exact E | exact F].
Defined.
